(** * Kanuni: a shallow embedding of [kanuni.py] and its properties

    The game keeps a 20 x 20 grid of integer tiles, a player made of cells,
    two food counters and one pending task.  Every key release runs
    [Controller.on_key_release]; every frame runs [Controller.on_draw].
    Rendering calls ([draw_grid], [draw_info], [print]) leave the game state
    alone and are left out. *)

From stdpp Require Import base option numbers list.

Local Open Scope Z_scope.

(** ** Python sequence indexing *)

(** [seq[i]] for a sequence of length [len]: indices [0 .. len-1] are taken
    as they are, indices [-len .. -1] count from the end, anything else
    raises [IndexError] (here [None]). *)
Definition py_index (len : nat) (i : Z) : option nat :=
  if bool_decide (0 ≤ i < Z.of_nat len) then Some (Z.to_nat i)
  else if bool_decide (- Z.of_nat len ≤ i < 0) then Some (Z.to_nat (i + Z.of_nat len))
  else None.

(** ** CONFIG *)

Definition tiles_row : nat := 20.
Definition tiles_col : nat := 20.
Definition max_food : Z := 10.

(** Tile values, the keys of [CONFIG["colors"]]. *)
Definition EMPTY : Z := 0.
Definition PLAYER : Z := 1.
Definition HERB_FOOD : Z := 2.
Definition CARN_FOOD : Z := 3.

(** ** Grid as an object graph

    [Grid.data] is a Python list whose items are references to row lists.
    The heap below maps a reference (an index) to the row it denotes, so two
    items of [data] may or may not denote the same row. *)
Module GridObj.

Abbreviation Heap := (list (list Z)).

Record t := mk { heap : Heap; data : list nat }.

Definition alloc (h : Heap) (line : list Z) : Heap * nat := (h ++ [line], length h).

(** [[list(repeat(0, col)).copy() for _ in range(row)]]: each round builds
    a list of [col] zeros and stores a fresh copy of it. *)
Fixpoint init_rows (row col : nat) (h : Heap) : Heap * list nat :=
  match row with
  | O => (h, [])
  | S row' =>
      let '(h1, tmp) := alloc h (replicate col 0) in
      let '(h2, ref) := alloc h1 (default [] (h1 !! tmp)) in
      let '(h3, refs) := init_rows row' col h2 in
      (h3, ref :: refs)
  end.

Definition init (row col : nat) : t :=
  let '(h, refs) := init_rows row col [] in mk h refs.

(** [self.data[row][col] = value] *)
Definition set_block (g : t) (col row value : Z) : option t :=
  r ← py_index (length (data g)) row;
  ref ← data g !! r;
  line ← heap g !! ref;
  c ← py_index (length line) col;
  Some (mk (<[ref := <[c := value]> line]> (heap g)) (data g)).

(** [return self.data[row][col]] *)
Definition get_block (g : t) (col row : Z) : option Z :=
  r ← py_index (length (data g)) row;
  ref ← data g !! r;
  line ← heap g !! ref;
  c ← py_index (length line) col;
  line !! c.

(** The grids a program can hold: built by the constructor, then written
    through [set_block] only. *)
Inductive reachable (row col : nat) : t → Prop :=
| reach_init : reachable row col (init row col)
| reach_set g c r v g' :
    reachable row col g → set_block g c r v = Some g' → reachable row col g'.

(** The rows as values, reference by reference. *)
Definition view (g : t) : list (list Z) :=
  (λ ref, default [] (heap g !! ref)) <$> data g.

(** Every reference is allocated, no row is referenced twice, every row
    has [col] tiles and there are [row] of them. *)
Record shaped (row col : nat) (g : t) : Prop := {
  shaped_rows : length (data g) = row;
  shaped_nodup : NoDup (data g);
  shaped_line ref : ref ∈ data g → ∃ line, heap g !! ref = Some line ∧ length line = col
}.

End GridObj.

(** ** Grid as nested lists

    The value the object graph denotes when its rows are distinct objects
    (see [GridObj.view]); the controller is modelled over this one. *)
Abbreviation Grid := (list (list Z)).

Definition Grid_init (row col : nat) : Grid := replicate row (replicate col 0).

Definition set_block (g : Grid) (col row value : Z) : option Grid :=
  r ← py_index (length g) row;
  line ← g !! r;
  c ← py_index (length line) col;
  Some (<[r := <[c := value]> line]> g).

Definition get_block (g : Grid) (col row : Z) : option Z :=
  r ← py_index (length g) row;
  line ← g !! r;
  c ← py_index (length line) col;
  line !! c.

(** ** Data model *)

Inductive Feeding := HERB | CARN | OMN.

(** [tuple(Feeding.__members__.values())], in definition order. *)
Definition Feeding_members : list Feeding := [HERB; CARN; OMN].

(** The string literals the controller dispatches on:
    ["x"], ["y"], ["evolve"], ["restart"] and ["tile"]. *)
Inductive Str := s_x | s_y | s_evolve | s_restart | s_tile.

#[global] Instance Str_eq_dec : EqDecision Str.
Proof. solve_decision. Defined.

(** A cell has the dataclass fields [x] and [y]; [update_coords] adds the
    attributes [_x] and [_y] (here [prev_x], [prev_y]) on first use. *)
Module Cell.
Record t := mk { x : Z; y : Z; prev_x : option Z; prev_y : option Z }.
Definition new (x y : Z) : t := mk x y None None.
End Cell.

(** [Cell.update_coords]; [getattr] knows the attributes ["x"] and ["y"]
    only, the other strings never reach it. *)
Definition update_coords (c : Cell.t) (direction : Str) (by_ : Z) : Cell.t :=
  match direction with
  | s_x => Cell.mk (Cell.x c + by_) (Cell.y c) (Some (Cell.x c)) (Cell.prev_y c)
  | s_y => Cell.mk (Cell.x c) (Cell.y c + by_) (Cell.prev_x c) (Some (Cell.y c))
  | _ => c
  end.

Record Features := mkFeatures { food : Z; speed : Z; feeding : Feeding }.

Record Player := mkPlayer {
  cells : list Cell.t;
  points : Z;
  level : Z;
  loses : Z;
  features : Features
}.

(** [random]'s generator: the numbers it will hand out and how many it has
    handed out so far. *)
Record Random := mkRandom { source : nat → nat; cursor : nat }.

(** The attributes of the [Controller] instance, and the module-level
    random generator.  [pending_task] holds the arguments that follow
    ["set_block"] in the tuple; [event] holds the number of lost cells that
    the message is formatted with. *)
Record World := mkWorld {
  grid : Grid;
  player : Player;
  herb_foods : Z;
  carn_foods : Z;
  pending_task : option (list Z);
  event : option Z;
  event_timer : Z;
  random : Random
}.

Definition set_grid (g : Grid) (w : World) : World :=
  mkWorld g (player w) (herb_foods w) (carn_foods w) (pending_task w) (event w)
          (event_timer w) (random w).
Definition set_player (p : Player) (w : World) : World :=
  mkWorld (grid w) p (herb_foods w) (carn_foods w) (pending_task w) (event w)
          (event_timer w) (random w).
Definition set_herb_foods (n : Z) (w : World) : World :=
  mkWorld (grid w) (player w) n (carn_foods w) (pending_task w) (event w)
          (event_timer w) (random w).
Definition set_carn_foods (n : Z) (w : World) : World :=
  mkWorld (grid w) (player w) (herb_foods w) n (pending_task w) (event w)
          (event_timer w) (random w).
Definition set_pending_task (t : option (list Z)) (w : World) : World :=
  mkWorld (grid w) (player w) (herb_foods w) (carn_foods w) t (event w)
          (event_timer w) (random w).
Definition set_event (e : option Z) (w : World) : World :=
  mkWorld (grid w) (player w) (herb_foods w) (carn_foods w) (pending_task w) e
          (event_timer w) (random w).
Definition set_event_timer (n : Z) (w : World) : World :=
  mkWorld (grid w) (player w) (herb_foods w) (carn_foods w) (pending_task w) (event w)
          n (random w).
Definition set_random (r : Random) (w : World) : World :=
  mkWorld (grid w) (player w) (herb_foods w) (carn_foods w) (pending_task w) (event w)
          (event_timer w) r.

Definition set_cells (cs : list Cell.t) (p : Player) : Player :=
  mkPlayer cs (points p) (level p) (loses p) (features p).
Definition set_points (n : Z) (p : Player) : Player :=
  mkPlayer (cells p) n (level p) (loses p) (features p).
Definition set_level (n : Z) (p : Player) : Player :=
  mkPlayer (cells p) (points p) n (loses p) (features p).
Definition set_loses (n : Z) (p : Player) : Player :=
  mkPlayer (cells p) (points p) (level p) n (features p).
Definition set_features (f : Features) (p : Player) : Player :=
  mkPlayer (cells p) (points p) (level p) (loses p) f.

(** ** Statements: state, and exceptions that keep the state *)

Inductive Exn := IndexError | TypeError.

Inductive Outcome (A : Type) := Done (a : A) | Raised (e : Exn).
Arguments Done {A} a.
Arguments Raised {A} e.

Definition M (A : Type) : Type := World → Outcome A * World.

Definition ret {A} (a : A) : M A := λ w, (Done a, w).

Definition bind {A B} (m : M A) (f : A → M B) : M B :=
  λ w, match m w with
       | (Done a, w') => f a w'
       | (Raised e, w') => (Raised e, w')
       end.

Declare Scope stmt_scope.
Delimit Scope stmt_scope with stmt.
Bind Scope stmt_scope with M.
Notation "x ⇐ m ;; k" := (bind m (λ x, k))
  (at level 100, m at next level, k at level 200, right associativity) : stmt_scope.
Notation "m ;; k" := (bind m (λ _, k))
  (at level 100, k at level 200, right associativity) : stmt_scope.
Local Open Scope stmt_scope.

Definition get : M World := λ w, (Done w, w).
Definition modify (f : World → World) : M unit := λ w, (Done tt, f w).
Definition modify_player (f : Player → Player) : M unit :=
  modify (λ w, set_player (f (player w)) w).
Definition raise {A} (e : Exn) : M A := λ w, (Raised e, w).

(** A subscript that may raise [IndexError]. *)
Definition subscript {A} (o : option A) : M A :=
  match o with Some a => ret a | None => raise IndexError end.

(** [with suppress(IndexError): body] *)
Definition suppress (body : M unit) : M unit :=
  λ w, match body w with
       | (Raised IndexError, w') => (Done tt, w')
       | r => r
       end.

(** ** The random module *)

(** The number the generator hands out next, and the world once it has. *)
Definition next_number (w : World) : nat := source (random w) (cursor (random w)).
Definition drawn (w : World) : World :=
  set_random (mkRandom (source (random w)) (S (cursor (random w)))) w.

Definition randbelow (n : nat) : M nat :=
  λ w, (Done (next_number w mod n)%nat, drawn w).

Definition randrange (start stop : Z) : M Z :=
  k ⇐ randbelow (Z.to_nat (stop - start)) ;; ret (start + Z.of_nat k).

(** [choice(seq)] raises [IndexError] on an empty sequence. *)
Definition choice {A} (seq : list A) : M A :=
  match seq with
  | [] => raise IndexError
  | _ => k ⇐ randbelow (length seq) ;; subscript (seq !! k)
  end.

(** ** Player *)

(** [Player()]: the dataclass defaults, then [__post_init__]. *)
Definition Player_init : M Player :=
  fd ⇐ choice Feeding_members ;;
  ret (mkPlayer [Cell.new 0 0] 0 1 0 (mkFeatures 1 1 fd)).

Fixpoint cell_collision_in (cs : list Cell.t) (row col : Z) : bool :=
  match cs with
  | [] => false
  | cell :: cs' =>
      if bool_decide (Cell.y cell = row) && bool_decide (Cell.x cell = col) then true
      else cell_collision_in cs' row col
  end.

(** [Player.cell_collision(self, row, col)] *)
Definition cell_collision (p : Player) (row col : Z) : bool :=
  cell_collision_in (cells p) row col.

(** [Player.required_points] *)
Definition required_points (p : Player) : Z := level p * 4.

(** The cell built in [obtain_cell]: [through] is [getattr(cell, through) + 1],
    the opposite attribute is copied. *)
Definition neighbour (cell : Cell.t) (through : Str) : Cell.t :=
  match through with
  | s_x => Cell.new (Cell.x cell + 1) (Cell.y cell)
  | _ => Cell.new (Cell.x cell) (Cell.y cell + 1)
  end.

(** The rounds of [Player.obtain_cell] that are left. *)
Fixpoint obtain_cell_rounds (n : nat) : M unit :=
  match n with
  | O => ret tt
  | S n' =>
      w ⇐ get ;;
      cell ⇐ choice (cells (player w)) ;;
      through ⇐ choice [s_x; s_y] ;;
      let cell := neighbour cell through in
      if cell_collision (player w) (Cell.x cell) (Cell.y cell) then obtain_cell_rounds n'
      else if bool_decide (Cell.x cell < Z.of_nat tiles_col)
              && bool_decide (Cell.y cell < Z.of_nat tiles_row)
           then modify_player (λ p, set_cells (cells p ++ [cell]) p)
           else obtain_cell_rounds n'
  end.

(** [Player.obtain_cell] *)
Definition obtain_cell : M unit :=
  w ⇐ get ;; obtain_cell_rounds (length (cells (player w))).

(** One round of the loop over [vars(self.features).items()]; a [Feeding]
    member never equals [0]. *)
Definition reset_zero (value : Z) : Z := if bool_decide (value = 0) then 1 else value.

(** [Player.obtain_new_feature] *)
Definition obtain_new_feature : M unit :=
  a ⇐ randrange 1 4 ;;
  modify_player (λ p, let f := features p in
                      set_features (mkFeatures (food f + a) (speed f) (feeding f)) p) ;;
  b ⇐ randrange (-1) 2 ;;
  modify_player (λ p, let f := features p in
                      set_features (mkFeatures (food f) (speed f + b) (feeding f)) p) ;;
  fd ⇐ choice Feeding_members ;;
  modify_player (λ p, let f := features p in
                      set_features (mkFeatures (food f) (speed f) fd) p) ;;
  modify_player (λ p, let f := features p in
                      set_features (mkFeatures (reset_zero (food f)) (reset_zero (speed f))
                                               (feeding f)) p) ;;
  obtain_cell.

(** ** Controller *)

(** [Controller.__init__] *)
Definition Controller_init (r : Random) : Outcome unit * World :=
  let w0 := mkWorld (Grid_init tiles_row tiles_col) (mkPlayer [] 0 1 0 (mkFeatures 1 1 HERB))
                    0 0 None None 0 r in
  (p ⇐ Player_init ;; modify (set_player p)) w0.

(** The rounds of [Controller._draw_foods] that are left. *)
Fixpoint _draw_foods_rounds (n : nat) (food : Z) (increased : Z) : M Z :=
  match n with
  | O => ret increased
  | S n' =>
      row ⇐ randrange 0 (Z.of_nat tiles_row) ;;
      col ⇐ randrange 0 (Z.of_nat tiles_col) ;;
      w ⇐ get ;;
      if cell_collision (player w) row col then _draw_foods_rounds n' food increased
      else
        g ⇐ subscript (set_block (grid w) row col food) ;;
        modify (set_grid g) ;;
        _draw_foods_rounds n' food (increased + 1)
  end.

(** [Controller._draw_foods] *)
Definition _draw_foods (food : Z) (amount : Z) : M Z :=
  if bool_decide (amount ≤ 0) then ret 0
  else _draw_foods_rounds (Z.to_nat amount) food 0.

(** [Controller.draw_foods] *)
Definition draw_foods : M unit :=
  w ⇐ get ;;
  let herb_amount := max_food - herb_foods w in
  let carn_amount := max_food - carn_foods w in
  h ⇐ _draw_foods HERB_FOOD herb_amount ;;
  modify (λ w', set_herb_foods (herb_foods w + h) w') ;;
  c ⇐ _draw_foods CARN_FOOD carn_amount ;;
  modify (λ w', set_carn_foods (carn_foods w + c) w').

(** [for cell in self.player.cells: self.grid.set_block(cell.x, cell.y, value)] *)
Fixpoint stamp (cs : list Cell.t) (value : Z) : M unit :=
  match cs with
  | [] => ret tt
  | cell :: cs' =>
      w ⇐ get ;;
      g ⇐ subscript (set_block (grid w) (Cell.x cell) (Cell.y cell) value) ;;
      modify (set_grid g) ;;
      stamp cs' value
  end.

(** [Controller.draw_player] *)
Definition draw_player (value : Z) : M unit :=
  w ⇐ get ;;
  stamp (cells (player w)) value ;;
  draw_foods.

(** [Controller.on_draw] *)
Definition on_draw : M unit := draw_player 1.

(** The diet test of [update_player]: [true] when the food is eaten. *)
Definition eats (fd : Feeding) (action : Z) : bool :=
  match fd with
  | OMN => true
  | CARN => bool_decide (action = 3)
  | HERB => bool_decide (action = 2)
  end.

(** The pending task is run: [getattr(self.grid, task)] applied to the rest
    of the tuple, for [task = "set_block"]. *)
Definition run_task (args : list Z) : M unit :=
  match args with
  | [col; row; value] =>
      w ⇐ get ;;
      g ⇐ subscript (set_block (grid w) col row value) ;;
      modify (set_grid g)
  | _ => raise TypeError
  end.

(** The first statements of [update_player], whatever [utype] is: count the
    call in [event_timer], roll, and on 66 with more than one cell lose the
    last cell. *)
Definition roll_for_death : M unit :=
  modify (λ w, set_event_timer (event_timer w + 1) w) ;;
  r ⇐ randrange 0 250 ;;
  w ⇐ get ;;
  if bool_decide (r = 66) && bool_decide (1 < length (cells (player w)))%nat
  then
    modify_player (λ p, set_loses (loses p + 1) p) ;;
    modify (λ w, set_event (Some (loses (player w))) w) ;;
    modify_player (λ p, set_cells (removelast (cells p)) p)
  else ret tt.

(** [Controller.update_player]; [args] are the positional arguments after
    [action]. *)
Definition update_player (utype : Str) (action : option Z) (args : list Z) : M unit :=
  roll_for_death ;;
  if bool_decide (utype = s_tile) && bool_decide (action = Some 3 ∨ action = Some 2) then
    let action := default 0 action in
    w ⇐ get ;;
    if eats (feeding (features (player w))) action then
      modify_player (λ p, set_points (points p + food (features p)) p) ;;
      (if bool_decide (action = 2)
       then modify (λ w, set_herb_foods (herb_foods w - 1) w)
       else modify (λ w, set_carn_foods (carn_foods w - 1) w))
    else
      modify (set_pending_task (Some (args ++ [action])))
  else if bool_decide (utype = s_evolve) then
    match action with
    | Some action =>
        w ⇐ get ;;
        if bool_decide (required_points (player w) ≤ action) then
          modify_player (λ p, set_level (level p + 1) p) ;;
          modify_player (λ p, set_points (points p - action) p) ;;
          obtain_new_feature
        else ret tt
    | None => raise TypeError
    end
  else if bool_decide (utype = s_restart) then
    p ⇐ Player_init ;;
    modify (λ w, mkWorld (Grid_init tiles_row tiles_col) p 0 0 None None 0 (random w))
  else ret tt.

(** The keys [on_key_release] knows, and any other key code. *)
Module Key.
Inductive t := W | S | D | A | G | R | Other (code : Z).
End Key.

(** The [actions] dictionary of [on_key_release], looked up at [key]. *)
Definition actions (p : Player) (key : Key.t) : option (Str * option Z) :=
  match key with
  | Key.W => Some (s_y, Some (speed (features p)))
  | Key.S => Some (s_y, Some (- speed (features p)))
  | Key.D => Some (s_x, Some (speed (features p)))
  | Key.A => Some (s_x, Some (- speed (features p)))
  | Key.G => Some (s_evolve, Some (points p))
  | Key.R => Some (s_restart, None)
  | Key.Other _ => None
  end.

(** [cell.update_coords(direction, amount)] on the cell the loop holds: the
    object stays at its index while it is in the list, and is out of the list
    once [pop] has removed it. *)
Definition move_cell (i : nat) (direction : Str) (amount : Z) : M unit :=
  modify_player (λ p, set_cells (alter (λ c, update_coords c direction amount) i (cells p)) p).

(** [for cell in self.player.cells: ...] of [on_key_release], from index [i]
    on.  The list iterator reads [cells[i]] and stops when [i] has reached
    the length the list has then; [fuel] bounds the rounds (the list never
    grows inside the loop, so its length at entry is enough). *)
Fixpoint for_cells (fuel : nat) (i : nat) (direction : Str) (amount : option Z) : M unit :=
  match fuel with
  | O => ret tt
  | Datatypes.S fuel' =>
      w ⇐ get ;;
      match cells (player w) !! i with
      | None => ret tt
      | Some cell =>
          if bool_decide (direction = s_y) || bool_decide (direction = s_x) then
            by_ ⇐ (match amount with Some a => ret a | None => raise TypeError end) ;;
            let '(x, y) :=
              if bool_decide (direction = s_y) then (Cell.x cell, Cell.y cell + by_)
              else (Cell.x cell + by_, Cell.y cell) in
            current ⇐ subscript (get_block (grid w) x y) ;;
            update_player s_tile (Some current) [x; y] ;;
            move_cell i direction by_ ;;
            for_cells fuel' (Datatypes.S i) direction amount
          else
            update_player direction amount []
      end
  end.

(** [if self.pending_task: ...] of [on_key_release]; the task stays in
    [pending_task] afterwards. *)
Definition discharge : M unit :=
  w ⇐ get ;;
  match pending_task w with
  | Some args => run_task args
  | None => ret tt
  end.

(** [Controller.on_key_release] *)
Definition on_key_release (key : Key.t) : M unit :=
  draw_player 0 ;;
  w ⇐ get ;;
  let action := actions (player w) key in
  discharge ;;
  match action with
  | Some (direction, amount) =>
      suppress (w ⇐ get ;;
                for_cells (length (cells (player w))) 0 direction amount)
  | None => ret tt
  end.

(** ** Running a statement *)

Definition exec {A} (m : M A) (w : World) : World := snd (m w).
Definition result {A} (m : M A) (w : World) : Outcome A := fst (m w).

(** ** Well-formed worlds *)

(** A grid of [row] lines of [col] tiles. *)
Definition grid_shaped (row col : nat) (g : Grid) : Prop :=
  length g = row ∧ Forall (λ line, length line = col) g.

(** The coordinates [data[y][x]] accepts on a [row] x [col] grid. *)
Definition in_reach (row col : nat) (x y : Z) : Prop :=
  - Z.of_nat col ≤ x < Z.of_nat col ∧ - Z.of_nat row ≤ y < Z.of_nat row.

(** What [Controller.__init__] sets up and every key release and frame
    keeps: the grid has the configured shape, the player has a cell, every
    cell and the pending task lie where the grid can be subscripted. *)
Record wf (w : World) : Prop := mk_wf {
  wf_grid : grid_shaped tiles_row tiles_col (grid w);
  wf_cells : Forall (λ c, in_reach tiles_row tiles_col (Cell.x c) (Cell.y c))
                    (cells (player w));
  wf_player : cells (player w) ≠ [];
  wf_pending : ∀ args, pending_task w = Some args →
      ∃ x y v, args = [x; y; v] ∧ in_reach tiles_row tiles_col x y
}.

(** What the drawing statements leave alone: they write tiles, food counters
    and the random generator only. *)
Definition keeps (w w' : World) : Prop :=
  player w' = player w ∧ pending_task w' = pending_task w
  ∧ event w' = event w ∧ event_timer w' = event_timer w
  ∧ source (random w') = source (random w).

(** ** Vocabulary of the statements about the player *)

Definition features_ok (f : Features) : Prop := 1 ≤ food f ∧ 1 ≤ speed f.

(** [cs'] is [cs], or [cs] and one more cell: the neighbour of a cell of
    [cs] one step up the x or the y axis, inside the upper grid bounds. *)
Definition cells_grown (cs cs' : list Cell.t) : Prop :=
  cs' = cs
  ∨ ∃ c through, c ∈ cs ∧ through ∈ [s_x; s_y]
      ∧ cs' = cs ++ [neighbour c through]
      ∧ Cell.x (neighbour c through) < Z.of_nat tiles_col
      ∧ Cell.y (neighbour c through) < Z.of_nat tiles_row.

(** The roll of [roll_for_death] in world [w]. *)
Definition death_roll (w : World) : Z := 0 + Z.of_nat (next_number w mod Z.to_nat (250 - 0)).

(** The roll says 66 and there is more than one cell. *)
Definition dies (w : World) : bool :=
  bool_decide (death_roll w = 66) && bool_decide (1 < length (cells (player w)))%nat.

(** What [roll_for_death] does to a world. *)
Record rolled (w w' : World) : Prop := mk_rolled {
  rolled_grid : grid w' = grid w;
  rolled_herb : herb_foods w' = herb_foods w;
  rolled_carn : carn_foods w' = carn_foods w;
  rolled_pending : pending_task w' = pending_task w;
  rolled_timer : event_timer w' = event_timer w + 1;
  rolled_random : random w' = random (drawn w);
  rolled_points : points (player w') = points (player w);
  rolled_level : level (player w') = level (player w);
  rolled_features : features (player w') = features (player w);
  rolled_cells : cells (player w')
                 = if dies w then removelast (cells (player w)) else cells (player w);
  rolled_loses : loses (player w')
                 = if dies w then loses (player w) + 1 else loses (player w);
  rolled_event : event w' = if dies w then Some (loses (player w) + 1) else event w
}.

(** The coordinates [x, y] the loop of [on_key_release] computes for a cell. *)
Definition target (direction : Str) (amount : Z) (c : Cell.t) : Z * Z :=
  if bool_decide (direction = s_y) then (Cell.x c, Cell.y c + amount)
  else (Cell.x c + amount, Cell.y c).

(** What [update_player("tile", current, x, y)] does once the roll is made. *)
Definition resolved (current x y : Z) (w : World) : World :=
  if bool_decide (current = 3 ∨ current = 2) then
    if eats (feeding (features (player w))) current then
      let w' := set_player (set_points (points (player w) + food (features (player w)))
                                       (player w)) w in
      if bool_decide (current = 2) then set_herb_foods (herb_foods w - 1) w'
      else set_carn_foods (carn_foods w - 1) w'
    else set_pending_task (Some [x; y; current]) w
  else w.

(** A generator none of whose numbers makes a death roll of 66. *)
Definition never_66 (r : Random) : Prop :=
  ∀ k, 0 + Z.of_nat (source r k mod Z.to_nat (250 - 0)) ≠ 66.

(** The features every creation and every re-roll can leave behind. *)
Inductive mutated : Features → Prop :=
| mutated_created w p w' :
    Player_init w = (Done p, w') → mutated (features p)
| mutated_rerolled w :
    mutated (features (player w)) →
    mutated (features (player (exec obtain_new_feature w))).

(** ** Worlds to run the game on *)

(** A generator that hands out [n] for ever, and one that hands out the
    numbers of a list and [0] from then on. *)
Definition always (n : nat) : Random := mkRandom (λ _, n) 0.
Definition scripted (l : list nat) : Random := mkRandom (λ i, nth i l 0%nat) 0.

(** The world [Controller.__init__] leaves. *)
Definition start (r : Random) : World := (Controller_init r).2.

(** A world with the tile at [(x, y)] set to [v]. *)
Definition with_tile (x y v : Z) (w : World) : World :=
  set_grid (default (grid w) (set_block (grid w) x y v)) w.

(** The world of [start] with another player. *)
Definition start_with (cs : list Cell.t) (pts lvl : Z) (fd : Feeding) (r : Random) : World :=
  set_player (mkPlayer cs pts lvl 0 (mkFeatures 1 1 fd)) (start r).

(** No two cells at one position. *)
Definition distinct_cells (cs : list Cell.t) : Prop :=
  NoDup ((λ c, (Cell.x c, Cell.y c)) <$> cs).

(** ** Vocabulary of the statements about whole key releases *)

(** The ranges the player's numbers are meant to stay in. *)
Definition stats_ok (p : Player) : Prop :=
  0 ≤ points p ∧ 1 ≤ level p ∧ 0 ≤ loses p ∧ features_ok (features p).

(** Neither food counter is above the cap. *)
Definition capped (w : World) : Prop :=
  herb_foods w ≤ max_food ∧ carn_foods w ≤ max_food.


(** ** Drawing the grid *)

(** The rest of [CONFIG["tiles"]], and [CONFIG["window"]] with the width and
    the height the module computes when it is loaded. *)
Definition tiles_sep : Z := 5.
Definition tiles_width : Z := 30.
Definition tiles_height : Z := 30.
Definition window_padding : Z := 150.
Definition window_width : Z :=
  (tiles_width + tiles_sep) * Z.of_nat tiles_col + tiles_sep + window_padding.
Definition window_height : Z :=
  (tiles_height + tiles_sep) * Z.of_nat tiles_row + tiles_sep + window_padding.

(** The [arcade.color] constants of [CONFIG["colors"]]. *)
Inductive Color := AQUA | ANTIQUE_FUCHSIA | GREEN | RED.

(** [CONFIG["colors"].get(col, Color.AQUA)] *)
Definition colors_get (col : Z) : Color :=
  if bool_decide (col = 0) then AQUA
  else if bool_decide (col = 1) then ANTIQUE_FUCHSIA
  else if bool_decide (col = 2) then GREEN
  else if bool_decide (col = 3) then RED
  else AQUA.

(** The arguments of one [arcade.create_rectangle_filled] call. *)
Record Rectangle := mkRectangle {
  center_x : Z;
  center_y : Z;
  width : Z;
  height : Z;
  color : Color
}.

(** The rectangle [draw_grid] makes for the tile [col] at row [ridx] and
    column [cidx]. *)
Definition tile_shape (ridx cidx : nat) (col : Z) : Rectangle :=
  let x := (tiles_sep + tiles_width) * Z.of_nat cidx + (tiles_sep + tiles_width)
           + window_padding `div` 2 in
  let y := (tiles_sep + tiles_height) * Z.of_nat ridx + (tiles_sep + tiles_height)
           + window_padding `div` 2 in
  mkRectangle x y tiles_width tiles_height (colors_get col).

(** [Controller.draw_grid]: the rectangles appended to [self.shape_list], in
    order. *)
Definition draw_grid (g : Grid) : list Rectangle :=
  mjoin (imap (λ ridx row, imap (λ cidx col, tile_shape ridx cidx col) row) g).

(** * Properties *)

(** ** Subscripts *)

Lemma py_index_nonneg len i :
  0 ≤ i < Z.of_nat len → py_index len i = Some (Z.to_nat i).
Proof. intros Hi. unfold py_index. by rewrite bool_decide_eq_true_2. Qed.

Lemma py_index_neg len i :
  - Z.of_nat len ≤ i < 0 → py_index len i = Some (Z.to_nat (i + Z.of_nat len)).
Proof.
  intros Hi. unfold py_index.
  rewrite bool_decide_eq_false_2 by lia. by rewrite bool_decide_eq_true_2.
Qed.

Lemma py_index_Some len i k :
  py_index len i = Some k → (k < len)%nat ∧ - Z.of_nat len ≤ i < Z.of_nat len.
Proof.
  unfold py_index. repeat case_bool_decide; intros [= <-]; lia.
Qed.

Lemma py_index_is_Some len i :
  - Z.of_nat len ≤ i < Z.of_nat len → ∃ k, py_index len i = Some k ∧ (k < len)%nat.
Proof.
  intros Hi. destruct (decide (0 ≤ i)).
  - exists (Z.to_nat i). rewrite py_index_nonneg by lia. split; [done | lia].
  - exists (Z.to_nat (i + Z.of_nat len)). rewrite py_index_neg by lia. split; [done | lia].
Qed.

Lemma py_index_None len i :
  ¬ (- Z.of_nat len ≤ i < Z.of_nat len) → py_index len i = None.
Proof. intros Hi. unfold py_index. repeat case_bool_decide; (done || lia). Qed.

(** ** The grid object *)

Section grid_object.
Import GridObj.

Lemma init_rows_spec row col h :
  ∃ ext, (init_rows row col h).1 = h ++ ext
    ∧ length (init_rows row col h).2 = row
    ∧ NoDup (init_rows row col h).2
    ∧ Forall (λ ref, (length h ≤ ref)%nat
                     ∧ (init_rows row col h).1 !! ref = Some (replicate col 0))
             (init_rows row col h).2.
Proof.
  revert h. induction row as [|row IH]; intros h.
  { exists []. simpl. rewrite app_nil_r. repeat split; [constructor | constructor]. }
  cbn [init_rows alloc].
  rewrite lookup_app_r, Nat.sub_diag by lia. cbn [lookup list_lookup default].
  match goal with |- context [init_rows row col ?h'] => set (h2 := h') end.
  destruct (IH h2) as (ext & Hh & Hlen & Hnd & Hall).
  destruct (init_rows row col h2) as [h3 refs] eqn:E. simpl in Hh, Hlen, Hnd, Hall.
  simpl. subst h3.
  assert (Hl2 : length h2 = Datatypes.S (Datatypes.S (length h))).
  { unfold h2. rewrite !length_app. simpl. lia. }
  exists ([replicate col 0; replicate col 0] ++ ext). repeat split.
  - unfold h2. by rewrite <- !app_assoc.
  - by rewrite Hlen.
  - constructor; [| done]. intros Hin.
    rewrite Forall_forall in Hall. apply Hall in Hin as [Hge _].
    rewrite length_app in Hge. simpl in Hge. lia.
  - constructor.
    + split; [rewrite length_app; simpl; lia |].
      rewrite lookup_app_l by (rewrite Hl2, length_app; simpl; lia).
      unfold h2. rewrite lookup_app_r by done. by rewrite Nat.sub_diag.
    + eapply Forall_impl; [exact Hall |]. intros ref [Hge Hline]. split; [lia | done].
Qed.

Lemma init_shaped row col : shaped row col (init row col).
Proof.
  unfold init. destruct (init_rows_spec row col []) as (ext & _ & Hlen & Hnd & Hall).
  destruct (init_rows row col []) as [h refs]. simpl in *.
  split; simpl; [done | done |].
  intros ref Hin. rewrite Forall_forall in Hall. apply Hall in Hin as [_ ?].
  exists (replicate col 0). by rewrite length_replicate.
Qed.

Lemma view_init row col : view (init row col) = replicate row (replicate col 0).
Proof.
  unfold init, view. destruct (init_rows_spec row col []) as (ext & _ & Hlen & _ & Hall).
  destruct (init_rows row col []) as [h refs]. simpl in *. subst row.
  induction Hall as [| ref refs [_ Href] _ IH]; [done |].
  rewrite fmap_cons, Href. simpl. f_equal. apply IH.
Qed.

Lemma set_block_shaped row col g c r v g' :
  shaped row col g → set_block g c r v = Some g' → shaped row col g'.
Proof.
  intros [Hrows Hnd Hline]. unfold set_block. intros Hset.
  destruct (py_index (length (data g)) r) as [ri|]; [simpl in Hset | done].
  destruct (data g !! ri) as [ref|]; [simpl in Hset | done].
  destruct (heap g !! ref) as [line|] eqn:Href; [simpl in Hset | done].
  destruct (py_index (length line) c) as [ci|]; [simpl in Hset | done].
  injection Hset as <-. split; simpl; [done | done |].
  intros ref' Hin. destruct (Hline ref' Hin) as (line' & Hl' & Hlen').
  destruct (decide (ref = ref')) as [<- | Hne].
  - exists (<[ci := v]> line). rewrite list_lookup_insert_eq by by eapply lookup_lt_Some.
    split; [done |]. rewrite length_insert. congruence.
  - exists line'. by rewrite list_lookup_insert_ne.
Qed.

Lemma reachable_shaped row col g : reachable row col g → shaped row col g.
Proof.
  induction 1 as [| g c r v g' _ IH Hset]; [apply init_shaped |].
  by eapply set_block_shaped.
Qed.

(** On a grid whose rows are distinct objects a write shows at its own
    tile and nowhere else. *)
Lemma set_block_shaped_frame row col g c r v :
  shaped row col g →
  0 ≤ c < Z.of_nat col → 0 ≤ r < Z.of_nat row →
  ∃ g', set_block g c r v = Some g'
    ∧ get_block g' c r = Some v
    ∧ ∀ c' r', 0 ≤ c' < Z.of_nat col → 0 ≤ r' < Z.of_nat row →
               (r', c') ≠ (r, c) → get_block g' c' r' = get_block g c' r'.
Proof.
  intros [Hrows Hnd Hline] Hc Hr. unfold set_block, get_block.
  rewrite Hrows, (py_index_nonneg row r) by done. simpl.
  destruct (lookup_lt_is_Some_2 (data g) (Z.to_nat r)) as [ref Hdata]; [lia |].
  rewrite Hdata. simpl.
  destruct (Hline ref) as (line & Hheap & Hlen); [by eapply list_elem_of_lookup_2 |].
  rewrite Hheap. simpl. rewrite Hlen, (py_index_nonneg col c) by done. simpl.
  eexists. split; [done |]. simpl. rewrite Hrows.
  split.
  - rewrite (py_index_nonneg row r) by done. simpl. rewrite Hdata. simpl.
    rewrite list_lookup_insert_eq by by eapply lookup_lt_Some. simpl.
    rewrite length_insert, Hlen, (py_index_nonneg col c) by done. simpl.
    apply list_lookup_insert_eq. lia.
  - intros c' r' Hc' Hr' Hne.
    rewrite (py_index_nonneg row r') by done. simpl.
    destruct (lookup_lt_is_Some_2 (data g) (Z.to_nat r')) as [ref' Hdata']; [lia |].
    rewrite Hdata'. simpl.
    destruct (decide (ref = ref')) as [<- | Hrefs].
    + assert (Z.to_nat r = Z.to_nat r') by by eapply NoDup_lookup.
      assert (c ≠ c') by (intros ->; apply Hne; f_equal; lia).
      rewrite list_lookup_insert_eq by by eapply lookup_lt_Some.
      rewrite Hheap. simpl. rewrite length_insert, Hlen.
      rewrite (py_index_nonneg col c') by done. simpl.
      apply list_lookup_insert_ne. lia.
    + by rewrite list_lookup_insert_ne.
Qed.

(** C10. [Grid.set_block(col, row, value)] on a grid built by the
    constructor and written through [set_block] since: for in-range [col] and
    [row] the write succeeds, the tile at [(row, col)] reads [value]
    afterwards, and every other in-range tile reads what it read before. *)
Theorem set_block_changes_one_tile row col g c r v :
  reachable row col g →
  0 ≤ c < Z.of_nat col → 0 ≤ r < Z.of_nat row →
  ∃ g', set_block g c r v = Some g'
    ∧ get_block g' c r = Some v
    ∧ ∀ c' r', 0 ≤ c' < Z.of_nat col → 0 ≤ r' < Z.of_nat row →
               (r', c') ≠ (r, c) → get_block g' c' r' = get_block g c' r'.
Proof.
  intros Hreach. apply set_block_shaped_frame. by apply reachable_shaped.
Qed.

Lemma set_block_changes_one_tile_witness :
  reachable 20 20 (init 20 20) ∧ 0 ≤ 3 < Z.of_nat 20 ∧ 0 ≤ 7 < Z.of_nat 20
  ∧ ∃ g', set_block (init 20 20) 3 7 2 = Some g'
    ∧ get_block g' 3 7 = Some 2
    ∧ ∀ c' r', 0 ≤ c' < Z.of_nat 20 → 0 ≤ r' < Z.of_nat 20 →
               (r', c') ≠ (7, 3) → get_block g' c' r' = get_block (init 20 20) c' r'.
Proof.
  split; [constructor |]. split; [lia |]. split; [lia |].
  apply (set_block_changes_one_tile 20 20 (init 20 20) 3 7 2); [constructor | lia | lia].
Defined.

(** The frame property is a property of the constructor: on a grid whose two
    items denote one row object, a write to row 0 shows in row 1 as well. *)
Example shared_rows_are_written_together :
  let g := mk [[0; 0]] [0%nat; 0%nat] in
  get_block g 0 1 = Some 0
  ∧ (g' ← set_block g 0 0 3; get_block g' 0 1) = Some 3.
Proof. by vm_compute. Qed.

End grid_object.

(** The nested-list grid is what the object denotes: the constructor
    denotes [Grid_init], a write to the object is the write to its value and
    a read from the object is the read from its value. *)
Lemma view_Grid_init row col : GridObj.view (GridObj.init row col) = Grid_init row col.
Proof. apply view_init. Qed.

Lemma view_get_block row col g c r :
  GridObj.shaped row col g → get_block (GridObj.view g) c r = GridObj.get_block g c r.
Proof.
  intros [Hrows Hnd Hline]. unfold get_block, GridObj.get_block, GridObj.view.
  rewrite length_fmap. destruct (py_index (length (GridObj.data g)) r) as [ri|]; [simpl | done].
  rewrite list_lookup_fmap. destruct (GridObj.data g !! ri) as [ref|] eqn:Hdata; [simpl | done].
  destruct (Hline ref) as (line & Hheap & _); [by eapply list_elem_of_lookup_2 |].
  by rewrite Hheap.
Qed.

Lemma view_set_block row col g c r v g' :
  GridObj.shaped row col g → GridObj.set_block g c r v = Some g' →
  set_block (GridObj.view g) c r v = Some (GridObj.view g').
Proof.
  intros [Hrows Hnd Hline]. unfold set_block, GridObj.set_block, GridObj.view.
  rewrite length_fmap. intros Hset.
  destruct (py_index (length (GridObj.data g)) r) as [ri|]; [simpl in * | done].
  rewrite list_lookup_fmap. destruct (GridObj.data g !! ri) as [ref|] eqn:Hdata; [simpl in * | done].
  destruct (GridObj.heap g !! ref) as [line|] eqn:Hheap; [simpl in * | done].
  destruct (py_index (length line) c) as [ci|]; [simpl in * | done].
  injection Hset as <-. simpl. f_equal.
  apply list_eq. intros j. rewrite list_lookup_fmap.
  destruct (decide (ri = j)) as [<- | Hne].
  - rewrite list_lookup_insert_eq by (rewrite length_fmap; by eapply lookup_lt_Some).
    rewrite Hdata. simpl. by rewrite list_lookup_insert_eq by by eapply lookup_lt_Some.
  - rewrite list_lookup_insert_ne, list_lookup_fmap by done.
    destruct (GridObj.data g !! j) as [ref'|] eqn:Hdata'; [simpl | done].
    rewrite list_lookup_insert_ne; [done |].
    intros ->. apply Hne. by eapply NoDup_lookup.
Qed.

(** ** The nested-list grid *)

Section grid.
Context (row col : nat).
Implicit Types (g : Grid) (x y v : Z).

Lemma grid_shaped_lookup g r line :
  grid_shaped row col g → g !! r = Some line → length line = col.
Proof.
  intros [_ Hall] Hr. rewrite Forall_forall in Hall.
  apply Hall. by eapply list_elem_of_lookup_2.
Qed.

Lemma Grid_init_shaped : grid_shaped row col (Grid_init row col).
Proof.
  split; [apply length_replicate |].
  apply Forall_forall. intros line [-> _]%elem_of_replicate. apply length_replicate.
Qed.

Lemma set_block_reach g x y v :
  grid_shaped row col g → in_reach row col x y →
  ∃ g', set_block g x y v = Some g' ∧ grid_shaped row col g'.
Proof.
  intros Hg [Hx Hy]. unfold set_block. pose proof Hg as [Hlen Hall].
  destruct (py_index_is_Some (length g) y) as (r & -> & Hr); [lia |]. simpl.
  destruct (lookup_lt_is_Some_2 g r Hr) as [line Hline]. rewrite Hline. simpl.
  pose proof (grid_shaped_lookup _ _ _ Hg Hline) as Hcol.
  destruct (py_index_is_Some (length line) x) as (c & -> & Hc); [lia |]. simpl.
  eexists. split; [done |]. split; [by rewrite length_insert |].
  apply Forall_insert; [done |]. by rewrite length_insert.
Qed.

Lemma get_block_reach g x y :
  grid_shaped row col g → in_reach row col x y → ∃ k, get_block g x y = Some k.
Proof.
  intros Hg [Hx Hy]. unfold get_block. pose proof Hg as [Hlen Hall].
  destruct (py_index_is_Some (length g) y) as (r & -> & Hr); [lia |]. simpl.
  destruct (lookup_lt_is_Some_2 g r Hr) as [line Hline]. rewrite Hline. simpl.
  pose proof (grid_shaped_lookup _ _ _ Hg Hline) as Hcol.
  destruct (py_index_is_Some (length line) x) as (c & -> & Hc); [lia |]. simpl.
  by apply lookup_lt_is_Some_2.
Qed.

Lemma get_block_Some_reach g x y k :
  grid_shaped row col g → get_block g x y = Some k → in_reach row col x y.
Proof.
  intros Hg. unfold get_block. pose proof Hg as [Hlen Hall]. intros Hget.
  destruct (py_index (length g) y) as [r|] eqn:Hr; [simpl in Hget | done].
  destruct (g !! r) as [line|] eqn:Hline; [simpl in Hget | done].
  destruct (py_index (length line) x) as [c|] eqn:Hc; [simpl in Hget | done].
  apply py_index_Some in Hr as [_ Hr], Hc as [_ Hc].
  rewrite (grid_shaped_lookup _ _ _ Hg Hline) in Hc. split; lia.
Qed.

Lemma get_block_out_of_reach g x y :
  grid_shaped row col g → ¬ in_reach row col x y → get_block g x y = None.
Proof.
  intros Hg Hout. destruct (get_block g x y) as [k|] eqn:Hget; [| done].
  destruct Hout. by eapply get_block_Some_reach.
Qed.

Lemma get_block_set_block g x y v g' :
  set_block g x y v = Some g' → get_block g' x y = Some v.
Proof.
  unfold set_block, get_block. intros Hset.
  destruct (py_index (length g) y) as [r|] eqn:Hr; [simpl in Hset | done].
  destruct (g !! r) as [line|] eqn:Hline; [simpl in Hset | done].
  destruct (py_index (length line) x) as [c|] eqn:Hc; [simpl in Hset | done].
  injection Hset as <-. rewrite length_insert, Hr. simpl.
  rewrite list_lookup_insert_eq by by eapply lookup_lt_Some. simpl.
  rewrite length_insert, Hc. simpl.
  apply list_lookup_insert_eq. by apply py_index_Some in Hc as [? _].
Qed.

End grid.

(** ** Statements *)

Lemma bind_Done {A B} (m : M A) (f : A → M B) w a w' :
  m w = (Done a, w') → bind m f w = f a w'.
Proof. unfold bind. by intros ->. Qed.

Lemma bind_Raised {A B} (m : M A) (f : A → M B) w e w' :
  m w = (Raised e, w') → bind m f w = (Raised e, w').
Proof. unfold bind. by intros ->. Qed.

Lemma randrange_run start stop w :
  randrange start stop w
  = (Done (start + Z.of_nat (next_number w mod Z.to_nat (stop - start))), drawn w).
Proof. done. Qed.

Lemma randrange_bounds start stop w :
  start < stop →
  start ≤ start + Z.of_nat (next_number w mod Z.to_nat (stop - start)) < stop.
Proof.
  intros Hlt.
  pose proof (Nat.mod_upper_bound (next_number w) (Z.to_nat (stop - start))). lia.
Qed.

Lemma choice_run {A} (seq : list A) w :
  seq ≠ [] →
  ∃ a, choice seq w = (Done a, drawn w) ∧ a ∈ seq.
Proof.
  intros Hne. destruct seq as [|a0 seq]; [done |].
  unfold choice. set (l := a0 :: seq).
  destruct (lookup_lt_is_Some_2 l (next_number w mod length l)) as [a Ha].
  { apply Nat.mod_upper_bound. done. }
  exists a. split; [| by eapply list_elem_of_lookup_2].
  unfold bind, randbelow. by rewrite Ha.
Qed.

Lemma keeps_refl w : keeps w w.
Proof. done. Qed.

Lemma keeps_trans w1 w2 w3 : keeps w1 w2 → keeps w2 w3 → keeps w1 w3.
Proof. unfold keeps. intros (-> & -> & -> & -> & ->) (-> & -> & -> & -> & ->). done. Qed.

(** ** The drawing statements *)

Lemma wf_keeps w w' :
  wf w → keeps w w' → grid_shaped tiles_row tiles_col (grid w') → wf w'.
Proof.
  intros [Hg Hc Hp Ht] (Hpl & Hpe & _) Hg'.
  split; [done | by rewrite Hpl | by rewrite Hpl | by rewrite Hpe].
Qed.

Lemma stamp_run cs v w :
  grid_shaped tiles_row tiles_col (grid w) →
  Forall (λ c, in_reach tiles_row tiles_col (Cell.x c) (Cell.y c)) cs →
  ∃ g', stamp cs v w = (Done tt, set_grid g' w) ∧ grid_shaped tiles_row tiles_col g'.
Proof.
  intros Hg Hcs. revert w Hg.
  induction Hcs as [| c cs Hc _ IH]; intros w Hg.
  { exists (grid w). by destruct w. }
  destruct (set_block_reach _ _ (grid w) (Cell.x c) (Cell.y c) v Hg Hc) as (g1 & Hset & Hg1).
  destruct (IH (set_grid g1 w) Hg1) as (g' & Hrun & Hg').
  exists g'. split; [| done].
  cbn [stamp]. unfold bind at 1, get. unfold bind at 1. rewrite Hset. cbn [subscript ret].
  unfold bind at 1, modify. by rewrite Hrun.
Qed.

Lemma _draw_foods_rounds_run n food increased w :
  grid_shaped tiles_row tiles_col (grid w) →
  ∃ k w', _draw_foods_rounds n food increased w = (Done k, w')
    ∧ grid_shaped tiles_row tiles_col (grid w') ∧ keeps w w'.
Proof.
  revert increased w. induction n as [| n IH]; intros increased w Hg.
  { by exists increased, w. }
  cbn [_draw_foods_rounds].
  rewrite (bind_Done _ _ _ _ _ (randrange_run _ _ _)).
  rewrite (bind_Done _ _ _ _ _ (randrange_run _ _ _)).
  set (r := 0 + Z.of_nat (next_number w mod _)).
  set (c := 0 + Z.of_nat (next_number (drawn w) mod _)).
  assert (0 ≤ r < Z.of_nat tiles_row) as Hr by (apply randrange_bounds; done).
  assert (0 ≤ c < Z.of_nat tiles_col) as Hc by (apply randrange_bounds; done).
  unfold bind at 1, get.
  destruct (cell_collision _ r c).
  - destruct (IH increased (drawn (drawn w)) Hg) as (k & w' & Hrun & Hg' & Hk).
    exists k, w'. split; [done |]. split; [done |].
    eapply keeps_trans; [| exact Hk]. done.
  - destruct (set_block_reach _ _ (grid w) r c food Hg) as (g1 & Hset & Hg1).
    { unfold in_reach, tiles_row, tiles_col in *. lia. }
    unfold bind at 1. cbn [grid drawn set_random]. rewrite Hset. cbn [subscript ret].
    unfold bind at 1, modify.
    destruct (IH (increased + 1) (set_grid g1 (drawn (drawn w))) Hg1)
      as (k & w' & Hrun & Hg' & Hk).
    exists k, w'. split; [done |]. split; [done |].
    eapply keeps_trans; [| exact Hk]. done.
Qed.

Lemma _draw_foods_run food amount w :
  grid_shaped tiles_row tiles_col (grid w) →
  ∃ k w', _draw_foods food amount w = (Done k, w')
    ∧ grid_shaped tiles_row tiles_col (grid w') ∧ keeps w w'.
Proof.
  intros Hg. unfold _draw_foods. case_bool_decide.
  - by exists 0, w.
  - by apply _draw_foods_rounds_run.
Qed.

Lemma draw_foods_run w :
  grid_shaped tiles_row tiles_col (grid w) →
  ∃ w', draw_foods w = (Done tt, w')
    ∧ grid_shaped tiles_row tiles_col (grid w') ∧ keeps w w'.
Proof.
  intros Hg. unfold draw_foods. unfold bind at 1, get.
  destruct (_draw_foods_run HERB_FOOD (max_food - herb_foods w) w Hg)
    as (h & w1 & Hrun1 & Hg1 & Hk1).
  rewrite (bind_Done _ _ _ _ _ Hrun1). unfold bind at 1, modify.
  set (w1' := set_herb_foods _ w1).
  destruct (_draw_foods_run CARN_FOOD (max_food - carn_foods w) w1' Hg1)
    as (c & w2 & Hrun2 & Hg2 & Hk2).
  rewrite (bind_Done _ _ _ _ _ Hrun2). unfold modify.
  eexists. split; [done |]. split; [done |].
  eapply keeps_trans; [exact Hk1 |]. eapply keeps_trans; [| exact Hk2]. done.
Qed.

(** [draw_player] returns on every well-formed world, keeps it well-formed
    and leaves the player, the pending task and the event alone. *)
Lemma draw_player_run value w :
  wf w → ∃ w', draw_player value w = (Done tt, w') ∧ wf w' ∧ keeps w w'.
Proof.
  intros Hw. pose proof Hw as [Hg Hc _ _]. unfold draw_player. unfold bind at 1, get.
  destruct (stamp_run (cells (player w)) value w Hg Hc) as (g1 & Hrun1 & Hg1).
  rewrite (bind_Done _ _ _ _ _ Hrun1).
  destruct (draw_foods_run (set_grid g1 w) Hg1) as (w' & Hrun & Hg' & Hk).
  exists w'. split; [done |].
  assert (keeps w w') by (eapply keeps_trans; [| exact Hk]; done).
  split; [by eapply wf_keeps | done].
Qed.

(** [discharge] writes the pending tile, if there is one, and nothing else. *)
Lemma discharge_run w :
  wf w →
  ∃ g', discharge w = (Done tt, set_grid g' w)
    ∧ grid_shaped tiles_row tiles_col g'
    ∧ ∀ x y v, pending_task w = Some [x; y; v] → get_block g' x y = Some v.
Proof.
  intros [Hg _ _ Hp]. unfold discharge. unfold bind at 1, get.
  destruct (pending_task w) as [args|] eqn:Hargs.
  - destruct (Hp args eq_refl) as (x & y & v & -> & Hxy).
    destruct (set_block_reach _ _ (grid w) x y v Hg Hxy) as (g' & Hset & Hg').
    exists g'. split; [| split; [done |]].
    + cbn [run_task]. unfold bind at 1, get. unfold bind at 1. rewrite Hset. done.
    + intros ? ? ? [= <- <- <-]. by eapply get_block_set_block.
  - exists (grid w). split; [by destruct w | split; [done | done]].
Qed.

(** ** Growing and re-rolling *)

Lemma choice_cases {A} (seq : list A) w :
  (seq = [] ∧ choice seq w = (Raised IndexError, w))
  ∨ (seq ≠ [] ∧ ∃ a, a ∈ seq ∧ choice seq w = (Done a, drawn w)).
Proof.
  destruct seq as [| a0 seq]; [by left | right]. split; [done |].
  destruct (choice_run (a0 :: seq) w) as (a & Hrun & Ha); [done |]. by exists a.
Qed.

Lemma set_player_id w : set_player (player w) (set_random (random w) w) = w.
Proof. by destruct w. Qed.

(** The growth search touches the cell list and the generator only; what
    it appends is a neighbour of an existing cell; it returns whenever the
    player has a cell. *)
Lemma obtain_cell_rounds_run n w :
  ∃ o cs r, obtain_cell_rounds n w
            = (o, set_player (set_cells cs (player w)) (set_random r w))
    ∧ cells_grown (cells (player w)) cs
    ∧ (cells (player w) ≠ [] → o = Done tt).
Proof.
  revert w. induction n as [| n IH]; intros w.
  { exists (Done tt), (cells (player w)), (random w).
    split; [| split; [by left | done]]. destruct w as [? [] ? ? ? ? ? ?]; done. }
  cbn [obtain_cell_rounds]. unfold bind at 1, get.
  destruct (choice_cases (cells (player w)) w) as [[Hnil Hrun] | [Hne (c & Hc & Hrun)]].
  { exists (Raised IndexError), (cells (player w)), (random w).
    rewrite (bind_Raised _ _ _ _ _ Hrun).
    split; [| split; [by left | done]]. destruct w as [? [] ? ? ? ? ? ?]; done. }
  rewrite (bind_Done _ _ _ _ _ Hrun).
  destruct (choice_run [s_x; s_y] (drawn w)) as (through & Hrun2 & Hthrough); [done |].
  rewrite (bind_Done _ _ _ _ _ Hrun2).
  destruct (cell_collision _ _ _); [| case_match].
  - destruct (IH (drawn (drawn w))) as (o & cs & r & Hrun3 & Hgrown & Ho).
    by exists o, cs, r.
  - eexists (Done tt), _, _. split; [reflexivity |]. split; [| done].
    right. exists c, through. repeat split; try done.
    all: match goal with H : _ && _ = true |- _ =>
           apply andb_true_iff in H as [?%bool_decide_eq_true ?%bool_decide_eq_true] end.
    all: done.
  - destruct (IH (drawn (drawn w))) as (o & cs & r & Hrun3 & Hgrown & Ho).
    by exists o, cs, r.
Qed.

Lemma obtain_cell_run w :
  ∃ o cs r, obtain_cell w = (o, set_player (set_cells cs (player w)) (set_random r w))
    ∧ cells_grown (cells (player w)) cs
    ∧ (cells (player w) ≠ [] → o = Done tt).
Proof. unfold obtain_cell. unfold bind, get. apply obtain_cell_rounds_run. Qed.

(** C9. The cell list after [obtain_cell] is the list before, or the list
    before and one appended cell that is the [+1] neighbour of one of its
    cells along the x axis or along the y axis. *)
Theorem obtain_cell_appends_positive_neighbour w :
  let cs := cells (player w) in
  let cs' := cells (player (exec obtain_cell w)) in
  cs' = cs
  ∨ ∃ c, c ∈ cs
      ∧ (cs' = cs ++ [Cell.new (Cell.x c + 1) (Cell.y c)]
         ∨ cs' = cs ++ [Cell.new (Cell.x c) (Cell.y c + 1)]).
Proof.
  intros cs cs'. subst cs cs'. unfold exec.
  destruct (obtain_cell_run w) as (o & cs & r & -> & [-> | Hgrown] & _); [by left |].
  destruct Hgrown as (c & through & Hc & Hthrough & -> & _). right. exists c.
  split; [done |]. simpl.
  apply list_elem_of_In in Hthrough. simpl in Hthrough.
  destruct Hthrough as [<- | [<- | []]]; [by left | by right].
Qed.

Lemma obtain_new_feature_run w :
  ∃ o p' r, obtain_new_feature w = (o, set_player p' (set_random r w))
    ∧ points p' = points (player w)
    ∧ level p' = level (player w)
    ∧ loses p' = loses (player w)
    ∧ cells_grown (cells (player w)) (cells p')
    ∧ (∃ a b, 1 ≤ a ≤ 3 ∧ -1 ≤ b ≤ 1
         ∧ food (features p') = reset_zero (food (features (player w)) + a)
         ∧ speed (features p') = reset_zero (speed (features (player w)) + b))
    ∧ (cells (player w) ≠ [] → o = Done tt).
Proof.
  unfold obtain_new_feature.
  rewrite (bind_Done _ _ _ _ _ (randrange_run _ _ _)).
  unfold bind at 1, modify_player, modify.
  match goal with |- context [bind (randrange (-1) 2) _ ?w1] =>
    rewrite (bind_Done _ _ w1 _ _ (randrange_run _ _ _)) end.
  unfold bind at 1.
  match goal with |- context [bind (choice Feeding_members) _ ?w2] =>
    destruct (choice_run Feeding_members w2) as (fd & Hfd & _); [done |];
    rewrite (bind_Done _ _ w2 _ _ Hfd) end.
  unfold bind at 1. unfold bind at 1.
  match goal with |- context [obtain_cell ?w3] =>
    destruct (obtain_cell_run w3) as (o & cs & r & Hrun & Hgrown & Ho); rewrite Hrun end.
  eexists o, _, r. split; [reflexivity |].
  do 3 (split; [done |]). split; [exact Hgrown |]. split; [| exact Ho].
  exists (1 + Z.of_nat (next_number w mod Z.to_nat (4 - 1))),
         (-1 + Z.of_nat (next_number (drawn w) mod Z.to_nat (2 - -1))).
  pose proof (randrange_bounds 1 4 w ltac:(lia)).
  pose proof (randrange_bounds (-1) 2 (drawn w) ltac:(lia)).
  split; [lia |]. split; [lia |]. split; reflexivity.
Qed.

Lemma reset_zero_positive v : 0 ≤ v → 1 ≤ reset_zero v.
Proof. unfold reset_zero. case_bool_decide; lia. Qed.

(** C8. Whatever features a creation ([Player()]) or a re-roll
    ([obtain_new_feature], which ends with the reset of zeros) leaves
    behind, [food] and [speed] are at least 1. *)
Theorem features_stay_positive f : mutated f → features_ok f.
Proof.
  induction 1 as [w p w' Hinit | w _ [Hfood Hspeed]].
  - unfold Player_init in Hinit.
    destruct (choice_run Feeding_members w) as (fd & Hfd & _); [done |].
    rewrite (bind_Done _ _ _ _ _ Hfd) in Hinit. injection Hinit as <- _.
    split; simpl; lia.
  - unfold exec.
    destruct (obtain_new_feature_run w)
      as (o & p' & r & -> & _ & _ & _ & _ & (a & b & Ha & Hb & Hf & Hs) & _).
    simpl. split; [rewrite Hf | rewrite Hs]; apply reset_zero_positive; lia.
Qed.

Lemma features_stay_positive_witness :
  mutated (features (player (exec obtain_new_feature (start (always 66)))))
  ∧ features_ok (features (player (exec obtain_new_feature (start (always 66))))).
Proof.
  assert (mutated (features (player (exec obtain_new_feature (start (always 66)))))) as Hm.
  { apply mutated_rerolled.
    apply (mutated_created (mkWorld (Grid_init tiles_row tiles_col)
                                    (mkPlayer [] 0 1 0 (mkFeatures 1 1 HERB))
                                    0 0 None None 0 (always 66))
                           (player (start (always 66)))
                           (drawn (mkWorld (Grid_init tiles_row tiles_col)
                                    (mkPlayer [] 0 1 0 (mkFeatures 1 1 HERB))
                                    0 0 None None 0 (always 66)))).
    reflexivity. }
  split; [exact Hm | exact (features_stay_positive _ Hm)].
Defined.

(** ** One call of [update_player] *)

(** Decide the comparisons of two string literals in the goal. *)
Ltac str_tests :=
  repeat match goal with
    | |- context [bool_decide (@eq Str ?a ?b)] =>
        first [ rewrite (bool_decide_eq_true_2 (a = b)) by done
              | rewrite (bool_decide_eq_false_2 (a = b)) by done ]
    end;
  cbn [andb orb].

Lemma roll_for_death_run w : ∃ w', roll_for_death w = (Done tt, w') ∧ rolled w w'.
Proof.
  unfold roll_for_death. unfold bind at 1, modify.
  rewrite (bind_Done _ _ _ _ _ (randrange_run _ _ _)). unfold bind at 1, get.
  change (bool_decide (_ = 66) && bool_decide _) with (dies w).
  destruct (dies w) eqn:Hd.
  - eexists. split; [reflexivity |]. constructor; simpl; rewrite ?Hd; done.
  - eexists. split; [reflexivity |]. constructor; simpl; rewrite ?Hd; done.
Qed.

Lemma rolled_cells_non_empty w w' :
  rolled w w' → cells (player w) ≠ [] → cells (player w') ≠ [].
Proof.
  intros Hr Hne. rewrite (rolled_cells _ _ Hr).
  destruct (dies w) eqn:Hd; [| done].
  apply andb_true_iff in Hd as [_ Hlen%bool_decide_eq_true].
  destruct (cells (player w)) as [| c [| c' cs]]; simpl in *; [lia | lia | done].
Qed.

Lemma rolled_length w w' :
  rolled w w' → (length (cells (player w')) ≤ length (cells (player w)))%nat.
Proof.
  intros Hr. rewrite (rolled_cells _ _ Hr). destruct (dies w); [| done].
  induction (cells (player w)) as [| c [| c' cs] IH]; simpl in *; lia.
Qed.

(** ** A key release up to its command *)

(** Every key release on a well-formed world first draws and writes the
    pending tile; what is left is the command, run on a well-formed world
    with the same player, pending task and event. *)
Lemma on_key_release_prelude key w :
  wf w →
  ∃ w1 g', draw_player 0 w = (Done tt, w1) ∧ wf w1 ∧ keeps w w1
    ∧ discharge w1 = (Done tt, set_grid g' w1)
    ∧ wf (set_grid g' w1) ∧ keeps w (set_grid g' w1)
    ∧ (∀ x y v, pending_task w = Some [x; y; v] → get_block g' x y = Some v)
    ∧ on_key_release key w
      = match actions (player w) key with
        | Some (direction, amount) =>
            suppress (for_cells (length (cells (player w))) 0 direction amount)
                     (set_grid g' w1)
        | None => (Done tt, set_grid g' w1)
        end.
Proof.
  intros Hw. destruct (draw_player_run 0 w Hw) as (w1 & Hdraw & Hw1 & Hk).
  destruct (discharge_run w1 Hw1) as (g' & Hdis & Hg' & Hget).
  pose proof Hk as (Hpl & Hpe & _).
  exists w1, g'. split; [done |]. split; [done |]. split; [done |]. split; [done |].
  assert (keeps w (set_grid g' w1)) as Hk' by done.
  split; [by eapply wf_keeps |]. split; [done |].
  split; [intros x y v Hp; apply Hget; by rewrite Hpe |].
  unfold on_key_release. rewrite (bind_Done _ _ _ _ _ Hdraw).
  unfold bind at 1, get. rewrite (bind_Done _ _ _ _ _ Hdis). rewrite Hpl.
  destruct (actions (player w) key) as [[direction amount] |]; [| done].
  unfold suppress, bind at 1, get. cbn [player set_grid]. by rewrite Hpl.
Qed.

(** A key that is not a direction: the loop calls [update_player] for the
    first cell and returns. *)
Lemma for_cells_command n direction amount w :
  cells (player w) ≠ [] → direction ≠ s_x → direction ≠ s_y →
  for_cells (Datatypes.S n) 0 direction amount w = update_player direction amount [] w.
Proof.
  intros Hne Hx Hy. cbn [for_cells]. unfold bind at 1, get.
  destruct (cells (player w)) as [| c cs]; [done |]. cbn [lookup list_lookup].
  by rewrite (bool_decide_eq_false_2 (direction = s_y)), (bool_decide_eq_false_2 (direction = s_x)).
Qed.

Lemma on_key_release_evolve w :
  wf w →
  ∃ w1, wf w1 ∧ keeps w w1
    ∧ on_key_release Key.G w
      = suppress (update_player s_evolve (Some (points (player w))) []) w1.
Proof.
  intros Hw. destruct (on_key_release_prelude Key.G w Hw)
    as (w1 & g' & _ & _ & _ & _ & Hw2 & Hk2 & _ & ->).
  exists (set_grid g' w1). split; [done |]. split; [done |].
  cbn [actions]. pose proof (wf_player _ Hw) as Hne.
  destruct (cells (player w)) as [| c cs] eqn:Hcs; [done |]. cbn [length].
  unfold suppress. rewrite for_cells_command; [done | | done | done].
  destruct Hk2 as [-> _]. by rewrite Hcs.
Qed.

(** [update_player("evolve", action)]: the roll, then either nothing or one
    more level, [action] points less, new features and maybe a new cell. *)
Lemma update_player_evolve action w :
  cells (player w) ≠ [] →
  ∃ w1, rolled w w1
    ∧ if bool_decide (required_points (player w) ≤ action)
      then ∃ p' r,
          update_player s_evolve (Some action) [] w
          = (Done tt, set_player p' (set_random r w1))
          ∧ level p' = level (player w) + 1
          ∧ points p' = points (player w) - action
          ∧ loses p' = loses (player w1)
          ∧ cells_grown (cells (player w1)) (cells p')
          ∧ (features_ok (features (player w)) → features_ok (features p'))
      else update_player s_evolve (Some action) [] w = (Done tt, w1).
Proof.
  intros Hne. destruct (roll_for_death_run w) as (w1 & Hroll & Hr).
  exists w1. split; [done |].
  unfold update_player. rewrite (bind_Done _ _ _ _ _ Hroll).
  str_tests.
  case_bool_decide as Hreq; unfold required_points in Hreq;
    unfold bind at 1, get; unfold required_points;
    rewrite (rolled_level _ _ Hr);
    [rewrite bool_decide_eq_true_2 by done | by rewrite bool_decide_eq_false_2 by done].
  unfold bind at 1, modify_player, modify. unfold bind at 1.
  match goal with |- context [obtain_new_feature ?w2] =>
    destruct (obtain_new_feature_run w2)
      as (o & p' & r & -> & Hpts & Hlvl & Hlos & Hgrown & (a & b & Ha & Hb & Hf & Hs) & Ho)
  end.
  cbn [player set_player set_level set_points cells points level loses features] in *.
  rewrite Ho by by eapply rolled_cells_non_empty.
  exists p', r. split; [done |].
  rewrite Hlvl, Hpts, Hlos, (rolled_level _ _ Hr), (rolled_points _ _ Hr).
  do 4 (split; [done |]).
  intros [Hfood Hspeed]. rewrite (rolled_features _ _ Hr) in Hf, Hs.
  split; [rewrite Hf | rewrite Hs]; apply reset_zero_positive; lia.
Qed.

Lemma Player_init_run w :
  ∃ fd, Player_init w = (Done (mkPlayer [Cell.new 0 0] 0 1 0 (mkFeatures 1 1 fd)), drawn w).
Proof.
  unfold Player_init. destruct (choice_run Feeding_members w) as (fd & Hfd & _); [done |].
  exists fd. by rewrite (bind_Done _ _ _ _ _ Hfd).
Qed.

Lemma start_wf r : wf (start r).
Proof.
  unfold start, Controller_init.
  match goal with |- context [bind Player_init _ ?w0] =>
    destruct (Player_init_run w0) as (fd & Hinit); rewrite (bind_Done _ _ _ _ _ Hinit) end.
  split; simpl.
  - apply Grid_init_shaped.
  - constructor; [| constructor]. unfold in_reach, tiles_row, tiles_col. simpl. lia.
  - done.
  - done.
Qed.

Lemma set_player_wf p w :
  wf w → cells p ≠ [] →
  Forall (λ c, in_reach tiles_row tiles_col (Cell.x c) (Cell.y c)) (cells p) →
  wf (set_player p w).
Proof. intros [Hg _ _ Hp] Hne Hcs. by split. Qed.

(** C1 (as the code has it). An Evolve key release on a well-formed world
    whose points have reached [required_points] returns, adds one to the
    level and takes away all the points the player has: the command carries
    the player's points and [update_player] subtracts what it carries. *)
Theorem evolve_spends_every_point w :
  wf w →
  required_points (player w) ≤ points (player w) →
  let w' := exec (on_key_release Key.G) w in
  result (on_key_release Key.G) w = Done tt
  ∧ level (player w') = level (player w) + 1
  ∧ points (player w') = 0.
Proof.
  intros Hw Hreq w'. subst w'. unfold exec, result.
  destruct (on_key_release_evolve w Hw) as (w1 & Hw1 & (Hpl & _) & ->).
  destruct (update_player_evolve (points (player w)) w1) as (w2 & Hr & Hrun).
  { apply Hw1. }
  rewrite Hpl in Hrun. rewrite bool_decide_eq_true_2 in Hrun by done.
  destruct Hrun as (p' & r & Hrun & Hlvl & Hpts & _).
  unfold suppress. rewrite Hrun. simpl. split; [done |]. split; [done | lia].
Qed.

Lemma evolve_spends_every_point_witness :
  let w := start_with [Cell.new 0 0] 10 1 HERB (always 0) in
  wf w
  ∧ required_points (player w) ≤ points (player w)
  ∧ result (on_key_release Key.G) w = Done tt
  ∧ level (player (exec (on_key_release Key.G) w)) = level (player w) + 1
  ∧ points (player (exec (on_key_release Key.G) w)) = 0.
Proof.
  intros w.
  assert (wf w) as Hw.
  { apply set_player_wf; [apply start_wf | done |].
    constructor; [| constructor]. unfold in_reach, tiles_row, tiles_col. simpl. lia. }
  assert (required_points (player w) ≤ points (player w)) as Hreq by (vm_compute; discriminate).
  split; [exact Hw |]. split; [exact Hreq |].
  exact (evolve_spends_every_point w Hw Hreq).
Defined.

(** C1 as stated fails: with 10 points at level 1 the player has reached
    the 4 required points, and an Evolve key release leaves 0 points, not
    [10 - 4]. *)
Lemma evolve_does_not_spend_required_points :
  let w := start_with [Cell.new 0 0] 10 1 HERB (always 0) in
  let w' := exec (on_key_release Key.G) w in
  required_points (player w) ≤ points (player w)
  ∧ level (player w') = level (player w) + 1
  ∧ points (player w') ≠ points (player w) - required_points (player w).
Proof. vm_compute. split; [discriminate |]. split; [done | discriminate]. Qed.

(** C7 (as the code has it). An Evolve key release on a well-formed world
    whose points are below [required_points] returns and leaves level,
    points and features as they are; the roll [update_player] starts with is
    made all the same, and when it says 66 and there is more than one cell
    the last cell goes and [loses] grows by one. *)
Theorem evolve_below_threshold w :
  wf w →
  points (player w) < required_points (player w) →
  let w' := exec (on_key_release Key.G) w in
  let died := dies (exec (draw_player 0) w) in
  result (on_key_release Key.G) w = Done tt
  ∧ level (player w') = level (player w)
  ∧ points (player w') = points (player w)
  ∧ features (player w') = features (player w)
  ∧ cells (player w') = (if died then removelast (cells (player w)) else cells (player w))
  ∧ loses (player w') = (if died then loses (player w) + 1 else loses (player w)).
Proof.
  intros Hw Hreq w' died. subst w' died. unfold exec, result.
  destruct (on_key_release_prelude Key.G w Hw)
    as (w1 & g' & -> & _ & _ & _ & Hw2 & (Hpl & _) & _ & ->).
  cbn [actions snd]. pose proof (wf_player _ Hw) as Hne.
  destruct (cells (player w)) as [| c cs] eqn:Hcs; [done |]. cbn [length].
  unfold suppress. rewrite for_cells_command; [| by rewrite Hpl, Hcs | done | done].
  destruct (update_player_evolve (points (player w)) (set_grid g' w1)) as (w2 & Hr & Hrun).
  { by rewrite Hpl, Hcs. }
  rewrite Hpl in Hrun. rewrite bool_decide_eq_false_2 in Hrun by lia.
  rewrite Hrun. cbn [fst snd]. split; [done |].
  rewrite (rolled_level _ _ Hr), (rolled_points _ _ Hr), (rolled_features _ _ Hr),
    (rolled_cells _ _ Hr), (rolled_loses _ _ Hr), Hpl.
  do 3 (split; [done |]).
  change (dies (set_grid g' w1)) with (dies w1). by rewrite Hcs.
Qed.

Lemma evolve_below_threshold_witness :
  let w := start_with [Cell.new 0 0; Cell.new 1 0] 3 1 HERB (always 66) in
  wf w
  ∧ points (player w) < required_points (player w)
  ∧ result (on_key_release Key.G) w = Done tt
  ∧ level (player (exec (on_key_release Key.G) w)) = level (player w)
  ∧ points (player (exec (on_key_release Key.G) w)) = points (player w)
  ∧ features (player (exec (on_key_release Key.G) w)) = features (player w)
  ∧ cells (player (exec (on_key_release Key.G) w))
    = (if dies (exec (draw_player 0) w)
       then removelast (cells (player w)) else cells (player w))
  ∧ loses (player (exec (on_key_release Key.G) w))
    = (if dies (exec (draw_player 0) w)
       then loses (player w) + 1 else loses (player w)).
Proof.
  intros w.
  assert (wf w) as Hw.
  { apply set_player_wf; [apply start_wf | done |].
    repeat constructor; unfold tiles_row, tiles_col; simpl; lia. }
  assert (points (player w) < required_points (player w)) as Hreq by (vm_compute; done).
  split; [exact Hw |]. split; [exact Hreq |].
  exact (evolve_below_threshold w Hw Hreq).
Defined.

(** C7 as stated fails: with 3 points at level 1 and two cells, an Evolve
    key release whose roll says 66 takes the last cell and counts a loss. *)
Lemma evolve_below_threshold_can_lose_a_cell :
  let w := start_with [Cell.new 0 0; Cell.new 1 0] 3 1 HERB (always 66) in
  let w' := exec (on_key_release Key.G) w in
  points (player w) < required_points (player w)
  ∧ cells (player w) = [Cell.new 0 0; Cell.new 1 0]
  ∧ cells (player w') = [Cell.new 0 0]
  ∧ loses (player w) = 0
  ∧ loses (player w') = 1.
Proof. vm_compute. done. Qed.

(** ** The loop over the cells *)

Lemma update_player_tile current x y w :
  ∃ w1, rolled w w1
    ∧ update_player s_tile (Some current) [x; y] w = (Done tt, resolved current x y w1).
Proof.
  destruct (roll_for_death_run w) as (w1 & Hroll & Hr).
  exists w1. split; [done |].
  unfold update_player. rewrite (bind_Done _ _ _ _ _ Hroll). str_tests.
  unfold resolved. cbn [default]. unfold id.
  destruct (decide (current = 3 ∨ current = 2)) as [Hfood | Hfood].
  - rewrite (bool_decide_eq_true_2 (Some current = Some 3 ∨ Some current = Some 2))
      by (destruct Hfood as [-> | ->]; auto).
    rewrite (bool_decide_eq_true_2 (current = 3 ∨ current = 2)) by done.
    unfold bind at 1, get.
    destruct (eats _ current); [| done].
    unfold bind at 1, modify_player, modify. by case_bool_decide.
  - rewrite (bool_decide_eq_false_2 (Some current = Some 3 ∨ Some current = Some 2))
      by (intros [[= ->] | [= ->]]; auto).
    rewrite (bool_decide_eq_false_2 (current = 3 ∨ current = 2)) by done.
    str_tests. done.
Qed.

Lemma resolved_cells current x y w : cells (player (resolved current x y w)) = cells (player w).
Proof. unfold resolved. repeat case_match; done. Qed.

Lemma resolved_grid current x y w : grid (resolved current x y w) = grid w.
Proof. unfold resolved. repeat case_match; done. Qed.

Lemma resolved_loses current x y w : loses (player (resolved current x y w)) = loses (player w).
Proof. unfold resolved. repeat case_match; done. Qed.

Lemma resolved_timer current x y w : event_timer (resolved current x y w) = event_timer w.
Proof. unfold resolved. repeat case_match; done. Qed.

Lemma resolved_random current x y w : random (resolved current x y w) = random w.
Proof. unfold resolved. repeat case_match; done. Qed.

(** One round of the loop for a direction key, on a cell whose target can
    be read. *)
Lemma for_cells_round fuel i direction amount w c current :
  direction = s_x ∨ direction = s_y →
  cells (player w) !! i = Some c →
  get_block (grid w) (target direction amount c).1 (target direction amount c).2
  = Some current →
  ∃ w1, rolled w w1
    ∧ for_cells (Datatypes.S fuel) i direction (Some amount) w
      = (move_cell i direction amount ;;
         for_cells fuel (Datatypes.S i) direction (Some amount))
          (resolved current (target direction amount c).1 (target direction amount c).2 w1).
Proof.
  intros Hdir Hc Hget. cbn [for_cells]. unfold bind at 1, get. rewrite Hc.
  assert (bool_decide (direction = s_y) || bool_decide (direction = s_x) = true) as ->
    by (destruct Hdir as [-> | ->]; reflexivity).
  unfold bind at 1, ret. unfold target in *.
  destruct (bool_decide (direction = s_y)); cbn [fst snd] in *.
  - unfold bind at 1. rewrite Hget. cbn [subscript ret].
    destruct (update_player_tile current (Cell.x c) (Cell.y c + amount) w) as (w1 & Hr & Hrun).
    exists w1. split; [done |]. by rewrite (bind_Done _ _ _ _ _ Hrun).
  - unfold bind at 1. rewrite Hget. cbn [subscript ret].
    destruct (update_player_tile current (Cell.x c + amount) (Cell.y c) w) as (w1 & Hr & Hrun).
    exists w1. split; [done |]. by rewrite (bind_Done _ _ _ _ _ Hrun).
Qed.

(** The loop stops with [IndexError], and nothing done, at a cell whose
    target cannot be read. *)
Lemma for_cells_abort fuel i direction amount w c :
  direction = s_x ∨ direction = s_y →
  cells (player w) !! i = Some c →
  get_block (grid w) (target direction amount c).1 (target direction amount c).2 = None →
  for_cells (Datatypes.S fuel) i direction (Some amount) w = (Raised IndexError, w).
Proof.
  intros Hdir Hc Hget. cbn [for_cells]. unfold bind at 1, get. rewrite Hc.
  assert (bool_decide (direction = s_y) || bool_decide (direction = s_x) = true) as ->
    by (destruct Hdir as [-> | ->]; reflexivity).
  unfold bind at 1, ret. unfold target in *.
  destruct (bool_decide (direction = s_y)); cbn [fst snd] in *.
  - unfold bind at 1. by rewrite Hget.
  - unfold bind at 1. by rewrite Hget.
Qed.

Lemma for_cells_end fuel i direction amount w :
  cells (player w) !! i = None → for_cells fuel i direction amount w = (Done tt, w).
Proof.
  intros Hc. destruct fuel; [done |]. cbn [for_cells]. unfold bind at 1, get. by rewrite Hc.
Qed.

(** ** Well-formed worlds stay well-formed *)

Lemma removelast_take {A} (l : list A) : removelast l = take (length l - 1) l.
Proof.
  induction l as [| a [| b l] IH]; [done | done |].
  change (removelast (a :: b :: l)) with (a :: removelast (b :: l)).
  rewrite IH. cbn [length Nat.sub]. rewrite Nat.sub_0_r. done.
Qed.

Lemma lookup_removelast {A} (l : list A) i a :
  removelast l !! i = Some a → l !! i = Some a.
Proof. rewrite removelast_take. by intros [? _]%lookup_take_Some. Qed.

Lemma Forall_removelast {A} (P : A → Prop) (l : list A) :
  Forall P l → Forall P (removelast l).
Proof. rewrite removelast_take. apply Forall_take. Qed.

Lemma rolled_lookup w w' i c :
  rolled w w' → cells (player w') !! i = Some c → cells (player w) !! i = Some c.
Proof.
  intros Hr. rewrite (rolled_cells _ _ Hr). destruct (dies w); [| done].
  apply lookup_removelast.
Qed.

Lemma rolled_wf w w' : wf w → rolled w w' → wf w'.
Proof.
  intros Hw Hr. pose proof Hw as [Hg Hc Hne Hp]. split.
  - by rewrite (rolled_grid _ _ Hr).
  - rewrite (rolled_cells _ _ Hr). destruct (dies w); [by apply Forall_removelast | done].
  - by eapply rolled_cells_non_empty.
  - by rewrite (rolled_pending _ _ Hr).
Qed.

Lemma resolved_wf current x y w :
  wf w → in_reach tiles_row tiles_col x y → wf (resolved current x y w).
Proof.
  intros [Hg Hc Hne Hp] Hxy.
  split; rewrite ?resolved_grid, ?resolved_cells; try done.
  unfold resolved. repeat case_match; try done.
  simpl. intros args [= <-]. by exists x, y, current.
Qed.

Lemma target_update_coords direction amount c :
  direction = s_x ∨ direction = s_y →
  (Cell.x (update_coords c direction amount), Cell.y (update_coords c direction amount))
  = target direction amount c.
Proof. by intros [-> | ->]. Qed.

Lemma move_cell_wf i direction amount w :
  direction = s_x ∨ direction = s_y →
  wf w →
  (∀ c, cells (player w) !! i = Some c →
        in_reach tiles_row tiles_col (target direction amount c).1
                 (target direction amount c).2) →
  wf (exec (move_cell i direction amount) w).
Proof.
  intros Hdir [Hg Hc Hne Hp] Hin. split; try done; simpl.
  - apply Forall_alter; [done |]. intros c Hi _. specialize (Hin c Hi).
    by rewrite <- (target_update_coords direction amount c) in Hin.
  - intros Hnil. apply Hne. apply (f_equal length) in Hnil.
    rewrite length_alter in Hnil. by destruct (cells (player w)).
Qed.

(** The loop for a direction key keeps the world well-formed and ends by
    returning or by the [IndexError] of a target outside the grid. *)
Lemma for_cells_wf direction amount fuel i w :
  direction = s_x ∨ direction = s_y →
  wf w →
  ∃ o w', for_cells fuel i direction (Some amount) w = (o, w')
    ∧ wf w' ∧ (o = Done tt ∨ o = Raised IndexError).
Proof.
  intros Hdir. revert i w. induction fuel as [| fuel IH]; intros i w Hw.
  { exists (Done tt), w. auto. }
  destruct (cells (player w) !! i) as [c|] eqn:Hc.
  2: { exists (Done tt), w. rewrite for_cells_end by done. auto. }
  destruct (get_block (grid w) (target direction amount c).1 (target direction amount c).2)
    as [current|] eqn:Hget.
  2: { exists (Raised IndexError), w. rewrite (for_cells_abort _ _ _ _ _ c) by done. auto. }
  destruct (for_cells_round fuel i direction amount w c current Hdir Hc Hget)
    as (w1 & Hr & ->).
  pose proof (get_block_Some_reach _ _ _ _ _ _ (wf_grid _ Hw) Hget) as Hreach.
  set (w2 := resolved _ _ _ w1).
  assert (wf w2) as Hw2 by (apply resolved_wf; [by eapply rolled_wf | done]).
  unfold bind at 1.
  change (move_cell i direction amount w2)
    with (Done tt, exec (move_cell i direction amount) w2).
  apply IH. eapply move_cell_wf; [done | done |].
  unfold w2. rewrite resolved_cells. intros c' Hc'.
  apply (rolled_lookup _ _ _ _ Hr) in Hc'. by simplify_eq.
Qed.

Lemma cells_grown_wf cs cs' :
  cells_grown cs cs' →
  Forall (λ c, in_reach tiles_row tiles_col (Cell.x c) (Cell.y c)) cs → cs ≠ [] →
  Forall (λ c, in_reach tiles_row tiles_col (Cell.x c) (Cell.y c)) cs' ∧ cs' ≠ [].
Proof.
  intros [-> | (c & through & Hc & Hthrough & -> & Hx & Hy)] Hall Hne; [done |].
  split; [| by destruct cs].
  apply Forall_app. split; [done |]. constructor; [| done].
  rewrite Forall_forall in Hall. destruct (Hall c Hc) as [Hcx Hcy].
  apply list_elem_of_In in Hthrough. simpl in Hthrough.
  destruct Hthrough as [<- | [<- | []]]; simpl in *; split; lia.
Qed.

(** Every key release on a well-formed world returns and leaves a
    well-formed world. *)
Lemma on_key_release_wf key w :
  wf w → ∃ w', on_key_release key w = (Done tt, w') ∧ wf w'.
Proof.
  intros Hw. destruct (on_key_release_prelude key w Hw)
    as (w1 & g' & _ & _ & _ & _ & Hw2 & (Hpl & _) & _ & ->).
  set (w2 := set_grid g' w1) in *.
  assert (cells (player w2) ≠ []) as Hne by apply Hw2.
  assert (∀ direction amount, direction = s_x ∨ direction = s_y →
            ∃ w', suppress (for_cells (length (cells (player w))) 0 direction (Some amount)) w2
                  = (Done tt, w') ∧ wf w') as Hmove.
  { intros direction amount Hdir.
    destruct (for_cells_wf direction amount (length (cells (player w))) 0 w2 Hdir Hw2)
      as (o & w' & Hrun & Hw' & Ho).
    exists w'. unfold suppress. rewrite Hrun. by destruct Ho as [-> | ->]. }
  destruct key; cbn [actions]; auto.
  - rewrite <- Hpl.
    destruct (update_player_evolve (points (player w2)) w2 Hne) as (w3 & Hr & Hrun).
    destruct (cells (player w2)) as [| c cs] eqn:Hcs; [done |]. cbn [length].
    unfold suppress. rewrite for_cells_command by (done || by rewrite Hcs).
    pose proof (rolled_wf _ _ Hw2 Hr) as Hw3.
    case_bool_decide.
    + destruct Hrun as (p' & r & -> & _ & _ & _ & Hgrown & _).
      eexists. split; [done |].
      destruct (cells_grown_wf _ _ Hgrown) as [? ?]; [apply Hw3 | apply Hw3 |].
      destruct Hw3. by split.
    + rewrite Hrun. eauto.
  - rewrite <- Hpl. destruct (cells (player w2)) as [| c cs] eqn:Hcs; [done |]. cbn [length].
    unfold suppress. rewrite for_cells_command by (done || by rewrite Hcs).
    destruct (roll_for_death_run w2) as (w3 & Hroll & Hr).
    unfold update_player. rewrite (bind_Done _ _ _ _ _ Hroll). str_tests.
    destruct (Player_init_run w3) as (fd & Hinit). rewrite (bind_Done _ _ _ _ _ Hinit).
    eexists. split; [done |]. split; simpl.
    + apply Grid_init_shaped.
    + repeat constructor; unfold tiles_row, tiles_col; simpl; lia.
    + done.
    + done.
  - by exists w2.
Qed.

(** Every frame on a well-formed world returns and leaves a well-formed
    world with the same player. *)
Lemma on_draw_wf w : wf w → ∃ w', on_draw w = (Done tt, w') ∧ wf w' ∧ keeps w w'.
Proof. apply draw_player_run. Qed.

Lemma rolled_functional w w1 w2 : rolled w w1 → rolled w w2 → w1 = w2.
Proof.
  intros [] []. destruct w1 as [? [] ? ? ? ? ? ?], w2 as [? [] ? ? ? ? ? ?].
  simpl in *. congruence.
Qed.

(** The fuel of [for_cells] is no limit: the loop ends by itself within as
    many rounds as there are cells from [i] on, so two runs with that much
    fuel agree. *)
Lemma for_cells_fuel direction amount fuel fuel' i w :
  direction = s_x ∨ direction = s_y →
  (length (cells (player w)) - i ≤ fuel)%nat →
  (length (cells (player w)) - i ≤ fuel')%nat →
  for_cells fuel i direction (Some amount) w = for_cells fuel' i direction (Some amount) w.
Proof.
  intros Hdir. revert fuel' i w. induction fuel as [| fuel IH]; intros fuel' i w Hf Hf'.
  { rewrite (for_cells_end fuel') by (apply lookup_ge_None; lia). done. }
  destruct (cells (player w) !! i) as [c|] eqn:Hc.
  2: { by rewrite !for_cells_end. }
  pose proof (lookup_lt_Some _ _ _ Hc) as Hlt.
  destruct fuel' as [| fuel']; [lia |].
  destruct (get_block (grid w) (target direction amount c).1 (target direction amount c).2)
    as [current|] eqn:Hget.
  2: { by rewrite !(for_cells_abort _ _ _ _ _ c). }
  destruct (for_cells_round fuel i direction amount w c current Hdir Hc Hget)
    as (w1 & Hr & ->).
  destruct (for_cells_round fuel' i direction amount w c current Hdir Hc Hget)
    as (w1' & Hr' & ->).
  assert (w1' = w1) as -> by by eapply rolled_functional.
  unfold bind.
  change (move_cell i direction amount ?w')
    with (Done tt, exec (move_cell i direction amount) w').
  cbv beta iota. apply IH.
  - simpl. rewrite length_alter, resolved_cells. pose proof (rolled_length _ _ Hr). lia.
  - simpl. rewrite length_alter, resolved_cells. pose proof (rolled_length _ _ Hr). lia.
Qed.

Lemma never_66_alive w : never_66 (random w) → dies w = false.
Proof.
  intros Hn. unfold dies. rewrite bool_decide_eq_false_2; [done |]. apply Hn.
Qed.

(** When no roll says 66 and every target can be read, the loop makes one
    call of [update_player] for each cell and moves each cell. *)
Lemma for_cells_all_alive direction amount todo done_ w :
  direction = s_x ∨ direction = s_y →
  grid_shaped tiles_row tiles_col (grid w) →
  cells (player w) = done_ ++ todo →
  Forall (λ c, in_reach tiles_row tiles_col (target direction amount c).1
                        (target direction amount c).2) todo →
  never_66 (random w) →
  ∃ w', for_cells (length todo) (length done_) direction (Some amount) w = (Done tt, w')
    ∧ cells (player w') = done_ ++ ((λ c, update_coords c direction amount) <$> todo)
    ∧ event_timer w' = event_timer w + Z.of_nat (length todo)
    ∧ cursor (random w') = (cursor (random w) + length todo)%nat
    ∧ loses (player w') = loses (player w).
Proof.
  intros Hdir. revert done_ w.
  induction todo as [| c todo IH]; intros done_ w Hg Hcs Hall Hn.
  { exists w. rewrite app_nil_r in *. cbn [length]. split; [done |].
    split; [done |]. split; [lia |]. split; [lia | done]. }
  apply Forall_cons in Hall as [Hc Hall].
  assert (cells (player w) !! length done_ = Some c) as Hi.
  { rewrite Hcs. by apply list_lookup_middle. }
  destruct (get_block_reach _ _ (grid w) _ _ Hg Hc) as (current & Hget).
  cbn [length].
  destruct (for_cells_round (length todo) (length done_) direction amount w c current
              Hdir Hi Hget) as (w1 & Hr & ->).
  set (w2 := resolved _ _ _ w1). unfold bind at 1.
  change (move_cell (length done_) direction amount w2)
    with (Done tt, exec (move_cell (length done_) direction amount) w2).
  cbv beta iota.
  set (w3 := exec (move_cell (length done_) direction amount) w2).
  assert (cells (player w1) = done_ ++ c :: todo) as Hcs1.
  { by rewrite (rolled_cells _ _ Hr), never_66_alive. }
  assert (cells (player w3) = (done_ ++ [update_coords c direction amount]) ++ todo) as Hcs3.
  { unfold w3, w2. simpl. rewrite resolved_cells, Hcs1.
    replace (length done_) with (length done_ + 0)%nat by lia.
    rewrite alter_app_r. by rewrite <- app_assoc. }
  destruct (IH (done_ ++ [update_coords c direction amount]) w3) as (w' & Hrun & Hc' & Ht' & Hk' & Hl').
  - unfold w3, w2. simpl. by rewrite resolved_grid, (rolled_grid _ _ Hr).
  - done.
  - done.
  - unfold w3, w2. cbn [exec move_cell modify_player modify snd random set_player].
    rewrite resolved_random, (rolled_random _ _ Hr). done.
  - exists w'. rewrite length_app in Hrun. cbn [length] in Hrun.
    rewrite Nat.add_1_r in Hrun. split; [done |].
    split; [by rewrite Hc', <- app_assoc |].
    split; [| split].
    + rewrite Ht'. unfold w3, w2. simpl. rewrite resolved_timer, (rolled_timer _ _ Hr). lia.
    + rewrite Hk'. unfold w3, w2. simpl. rewrite resolved_random, (rolled_random _ _ Hr).
      simpl. lia.
    + rewrite Hl'. unfold w3, w2. simpl.
      by rewrite resolved_loses, (rolled_loses _ _ Hr), never_66_alive.
Qed.

Lemma never_66_keeps w w' : keeps w w' → never_66 (random w) → never_66 (random w').
Proof. intros (_ & _ & _ & _ & Hs) Hn k. rewrite Hs. apply Hn. Qed.

(** C3 (as the code has it). The death roll belongs to [update_player],
    not to the command.  Every call for a tile, food or not, returns, counts
    itself in [event_timer], draws one number, and when the roll says 66 and
    there is more than one cell removes the last cell and adds one to
    [loses], else leaves both alone.  A direction key release makes one such
    call for each cell it moves: when no roll says 66 and every target is on
    the grid, [event_timer] and the generator advance by the number of
    cells. *)
Theorem death_roll_once_per_call :
  (∀ current x y w,
     let w' := exec (update_player s_tile (Some current) [x; y]) w in
     result (update_player s_tile (Some current) [x; y]) w = Done tt
     ∧ event_timer w' = event_timer w + 1
     ∧ cursor (random w') = Datatypes.S (cursor (random w))
     ∧ cells (player w')
       = (if dies w then removelast (cells (player w)) else cells (player w))
     ∧ loses (player w')
       = (if dies w then loses (player w) + 1 else loses (player w)))
  ∧ (∀ key direction amount w,
       wf w →
       actions (player w) key = Some (direction, Some amount) →
       direction = s_x ∨ direction = s_y →
       Forall (λ c, in_reach tiles_row tiles_col (target direction amount c).1
                             (target direction amount c).2) (cells (player w)) →
       never_66 (random w) →
       let w' := exec (on_key_release key) w in
       result (on_key_release key) w = Done tt
       ∧ event_timer w' = event_timer w + Z.of_nat (length (cells (player w)))
       ∧ cursor (random w')
         = (cursor (random (exec (draw_player 0) w)) + length (cells (player w)))%nat
       ∧ cells (player w') = (λ c, update_coords c direction amount) <$> cells (player w)
       ∧ loses (player w') = loses (player w)).
Proof.
  split.
  - intros current x y w w'. subst w'. unfold exec, result.
    destruct (update_player_tile current x y w) as (w1 & Hr & ->). cbn [fst snd].
    rewrite resolved_timer, resolved_random, resolved_cells, resolved_loses.
    rewrite (rolled_timer _ _ Hr), (rolled_random _ _ Hr), (rolled_cells _ _ Hr),
      (rolled_loses _ _ Hr). done.
  - intros key direction amount w Hw Hact Hdir Hall Hn w'. subst w'. unfold exec, result.
    destruct (on_key_release_prelude key w Hw)
      as (w1 & g' & -> & _ & _ & _ & Hw2 & Hk & _ & ->).
    rewrite Hact. pose proof Hk as (Hpl & _ & _ & Ht & _).
    destruct (for_cells_all_alive direction amount (cells (player w)) [] (set_grid g' w1)
                Hdir (wf_grid _ Hw2) (eq_sym (f_equal cells (eq_sym Hpl))) Hall
                (never_66_keeps _ _ Hk Hn))
      as (w' & Hrun & Hc' & Ht' & Hk' & Hl').
    cbn [length] in Hrun. unfold suppress. rewrite Hrun. cbn [fst snd].
    rewrite Hc', Ht', Hk', Hl', Ht, Hpl. done.
Qed.

(** Worlds written out are well-formed by inspection. *)
Ltac concrete_wf :=
  split;
  [ split; [reflexivity | repeat constructor]
  | repeat constructor; unfold tiles_row, tiles_col; simpl; lia
  | discriminate
  | intros args Hargs; first [ discriminate Hargs
                             | injection Hargs as <-; eexists _, _, _;
                               split; [reflexivity |];
                               split; unfold tiles_row, tiles_col; simpl; lia ] ].

Lemma death_roll_once_per_call_witness :
  let w := start_with [Cell.new 0 0; Cell.new 1 0] 3 1 HERB (always 0) in
  wf w
  ∧ actions (player w) Key.W = Some (s_y, Some 1)
  ∧ (s_y = s_x ∨ s_y = s_y)
  ∧ Forall (λ c, in_reach tiles_row tiles_col (target s_y 1 c).1 (target s_y 1 c).2)
           (cells (player w))
  ∧ never_66 (random w)
  ∧ result (on_key_release Key.W) w = Done tt
  ∧ event_timer (exec (on_key_release Key.W) w)
    = event_timer w + Z.of_nat (length (cells (player w)))
  ∧ cursor (random (exec (on_key_release Key.W) w))
    = (cursor (random (exec (draw_player 0) w)) + length (cells (player w)))%nat
  ∧ cells (player (exec (on_key_release Key.W) w))
    = (λ c, update_coords c s_y 1) <$> cells (player w)
  ∧ loses (player (exec (on_key_release Key.W) w)) = loses (player w).
Proof.
  intros w.
  assert (wf w) as Hw by concrete_wf.
  assert (actions (player w) Key.W = Some (s_y, Some 1)) as Hact by reflexivity.
  assert (s_y = s_x ∨ s_y = s_y) as Hdir by (right; reflexivity).
  assert (Forall (λ c, in_reach tiles_row tiles_col (target s_y 1 c).1 (target s_y 1 c).2)
                 (cells (player w))) as Hall
    by (repeat constructor; unfold tiles_row, tiles_col; simpl; lia).
  assert (never_66 (random w)) as Hn by (intros k; vm_compute; discriminate).
  do 5 (split; [assumption |]).
  exact (proj2 death_roll_once_per_call Key.W s_y 1 w Hw Hact Hdir Hall Hn).
Defined.

(** C3 as stated fails.  With two cells on empty tiles, one press of W
    makes two death rolls, though no target tile is food; and when the roll
    says 66 a cell is lost on an empty tile: the last one, the cell that was
    at [(1, 0)], while the first one moves to [(0, 1)]. *)
Lemma death_roll_is_not_once_per_command :
  let w := start_with [Cell.new 0 0; Cell.new 1 0] 3 1 HERB (always 0) in
  let v := start_with [Cell.new 0 0; Cell.new 1 0] 3 1 HERB (always 66) in
  let wd := exec (draw_player 0 ;; discharge) w in
  let vd := exec (draw_player 0 ;; discharge) v in
  (get_block (grid wd) 0 1 = Some EMPTY ∧ get_block (grid wd) 1 1 = Some EMPTY
   ∧ event_timer (exec (on_key_release Key.W) w) = event_timer w + 2
   ∧ cursor (random (exec (on_key_release Key.W) w)) = (cursor (random wd) + 2)%nat)
  ∧ (get_block (grid vd) 0 1 = Some EMPTY
     ∧ loses (player (exec (on_key_release Key.W) v)) = loses (player v) + 1
     ∧ (λ c, (Cell.x c, Cell.y c)) <$> cells (player (exec (on_key_release Key.W) v))
       = [(0, 1)]).
Proof. vm_compute. done. Qed.

(** ** The pending task *)


(** Whatever task a well-formed world holds, the next key release has
    written its tile by the time the command is run. *)
Lemma pending_tile_is_written w1 x y v :
  wf w1 →
  pending_task w1 = Some [x; y; v] →
  result (draw_player 0 ;; discharge) w1 = Done tt
  ∧ get_block (grid (exec (draw_player 0 ;; discharge) w1)) x y = Some v.
Proof.
  intros Hw1 Hpending.
  destruct (draw_player_run 0 w1 Hw1) as (w2 & Hdraw & Hw2 & (_ & Hpe & _)).
  destruct (discharge_run w2 Hw2) as (g' & Hdis & _ & Hrestored).
  unfold exec, result. rewrite (bind_Done _ _ _ _ _ Hdraw), Hdis. cbn [fst snd].
  split; [done |]. apply Hrestored. by rewrite Hpe.
Qed.



(** The round trip over two whole key releases, for a player of one cell:
    when the tile the cell moves onto is a food the diet rejects, the key
    release schedules it and scores nothing, and after the frame that
    follows, the next key release has the food back on the tile before its
    command is run. *)
Lemma one_cell_rejection_round_trip key direction amount w c kind :
  wf w →
  cells (player w) = [c] →
  actions (player w) key = Some (direction, Some amount) →
  direction = s_x ∨ direction = s_y →
  let x := (target direction amount c).1 in
  let y := (target direction amount c).2 in
  get_block (grid (exec (draw_player 0 ;; discharge) w)) x y = Some kind →
  kind = HERB_FOOD ∨ kind = CARN_FOOD →
  eats (feeding (features (player w))) kind = false →
  let w1 := exec (on_key_release key) w in
  pending_task w1 = Some [x; y; kind]
  ∧ points (player w1) = points (player w)
  ∧ get_block (grid (exec (draw_player 0 ;; discharge) (exec on_draw w1))) x y = Some kind.
Proof.
  intros Hw Hc Hact Hdir x y Hget Hkind Heats w1.
  destruct (on_key_release_wf key w Hw) as (w1' & Hrun1 & Hw1).
  assert (w1 = w1') as Hw1' by (unfold w1, exec; by rewrite Hrun1).
  clearbody w1. subst w1.
  destruct (on_key_release_prelude key w Hw)
    as (wa & g' & Hdraw & _ & _ & Hdis & Hw2 & (Hpl & _) & _ & Hrun).
  assert (exec (draw_player 0 ;; discharge) w = set_grid g' wa) as Hprelude.
  { unfold exec. by rewrite (bind_Done _ _ _ _ _ Hdraw), Hdis. }
  rewrite Hprelude in Hget. rewrite Hact, Hc in Hrun. cbn [length] in Hrun.
  destruct (for_cells_round 0 0 direction amount (set_grid g' wa) c kind Hdir)
    as (wr & Hr & Hround); [by rewrite Hpl, Hc | done |].
  unfold suppress in Hrun. rewrite Hround in Hrun. fold x y in Hrun.
  unfold bind at 1 in Hrun. cbn in Hrun. rewrite Hrun1 in Hrun. injection Hrun as ->.
  assert (pending_task (resolved kind x y wr) = Some [x; y; kind]
          ∧ points (player (resolved kind x y wr)) = points (player w)) as [Hp Hpts].
  { unfold resolved. rewrite (rolled_features _ _ Hr), Hpl, Heats.
    rewrite bool_decide_eq_true_2 by (destruct Hkind as [-> | ->]; auto).
    cbn. by rewrite (rolled_points _ _ Hr), Hpl. }
  split; [done |]. split; [done |].
  destruct (on_draw_wf _ Hw1) as (wf_ & Hframe & Hwf & (_ & Hpe & _)).
  unfold exec at 2. rewrite Hframe. cbn [snd].
  apply pending_tile_is_written; [done |]. by rewrite Hpe.
Qed.

(** The scenario end to end: a carnivore at [(5, 5)] moves up onto a herb
    tile.  Points and the herb counter stay (the counter is at its cap after
    drawing), the cell sits on the tile, and before the next command is run
    the tile reads herb again. *)
Example carnivore_walks_over_herb :
  let w := with_tile 5 6 HERB_FOOD (start_with [Cell.new 5 5] 0 1 CARN (always 0)) in
  let w1 := exec (on_key_release Key.W) w in
  let w2 := exec (draw_player 0 ;; discharge) (exec on_draw w1) in
  points (player w1) = 0
  ∧ herb_foods w1 = max_food
  ∧ (λ c, (Cell.x c, Cell.y c)) <$> cells (player w1) = [(5, 6)]
  ∧ pending_task w1 = Some [5; 6; HERB_FOOD]
  ∧ get_block (grid (exec on_draw w1)) 5 6 = Some PLAYER
  ∧ get_block (grid w2) 5 6 = Some HERB_FOOD.
Proof. vm_compute. done. Qed.

(** ** Where the code leaves its own rules *)

(** C2 at a failing input.  At the start the one cell is at [(0, 0)] and
    the speed is 1; S asks for [(0, -1)], which is outside the grid, and the
    subscript [data[-1][0]] reads the last row instead of raising: the
    command is carried out and the cell is left at [(0, -1)].  With cells at
    [(18, 0)] and [(19, 0)], D asks for [(19, 0)] and [(20, 0)]: the second
    subscript raises, after the first cell has been moved. *)
Theorem move_outside_grid_is_not_aborted :
  let w := start (always 0) in
  let v := start_with [Cell.new 18 0; Cell.new 19 0] 0 1 HERB (always 0) in
  ((λ c, (Cell.x c, Cell.y c)) <$> cells (player w) = [(0, 0)]
   ∧ actions (player w) Key.S = Some (s_y, Some (-1))
   ∧ ¬ (0 ≤ 0 + -1 < Z.of_nat tiles_row)
   ∧ (λ c, (Cell.x c, Cell.y c)) <$> cells (player (exec (on_key_release Key.S) w))
     = [(0, -1)]
   ∧ event_timer (exec (on_key_release Key.S) w) = event_timer w + 1)
  ∧ (actions (player v) Key.D = Some (s_x, Some 1)
     ∧ ¬ (0 ≤ 19 + 1 < Z.of_nat tiles_col)
     ∧ (λ c, (Cell.x c, Cell.y c)) <$> cells (player (exec (on_key_release Key.D) v))
       = [(19, 0); (19, 0)]).
Proof.
  split.
  - split; [by vm_compute |]. split; [by vm_compute |].
    split; [unfold tiles_row; lia |]. by vm_compute.
  - split; [by vm_compute |]. split; [unfold tiles_col; lia |]. by vm_compute.
Qed.

(** What the bounds test of the loop does catch: when the first cell's
    target cannot be subscripted, the loop stops with nothing done. *)
Lemma for_cells_first_target_out_of_reach fuel direction amount w c :
  direction = s_x ∨ direction = s_y →
  grid_shaped tiles_row tiles_col (grid w) →
  cells (player w) !! 0%nat = Some c →
  ¬ in_reach tiles_row tiles_col (target direction amount c).1 (target direction amount c).2 →
  suppress (for_cells (Datatypes.S fuel) 0 direction (Some amount)) w = (Done tt, w).
Proof.
  intros Hdir Hg Hc Hout. unfold suppress.
  rewrite (for_cells_abort _ _ _ _ _ c); [done | done | done |].
  by eapply get_block_out_of_reach.
Qed.

(** C5 at a failing input.  The player's cell is at [x = 1, y = 0] and the
    spawner picks [row = 1, col = 0] (the first number of the script went to
    the diet at creation).  [cell_collision(row, col)] looks for a
    cell with [y = 1, x = 0] and finds none; [set_block(row, col, food)]
    takes [row] for its column and [col] for its row and writes the tile at
    column 1 of row 0, the one under the cell.  After the frame the tile of
    the cell reads herb food, and the attempt was counted. *)
Theorem food_is_drawn_under_a_cell :
  let w := start_with [Cell.new 1 0] 0 1 HERB (scripted [0; 1; 0]%nat) in
  let w' := exec on_draw w in
  cell_collision (player w) 1 0 = false
  ∧ (λ c, (Cell.x c, Cell.y c)) <$> cells (player w') = [(1, 0)]
  ∧ get_block (grid w') 1 0 = Some HERB_FOOD
  ∧ get_block (grid (exec (_draw_foods HERB_FOOD 1) w)) 1 0 = Some HERB_FOOD
  ∧ result (_draw_foods HERB_FOOD 1) w = Done 1.
Proof. vm_compute. done. Qed.

(** The tile one round of the spawner writes, when it writes: the collision
    test is made for a cell with [y = row] and [x = col], the food goes to
    the tile a cell with [x = row] and [y = col] stands on. *)
Lemma spawner_round_writes_transposed food increased w :
  grid_shaped tiles_row tiles_col (grid w) →
  let row := 0 + Z.of_nat (next_number w mod Z.to_nat (Z.of_nat tiles_row - 0)) in
  let col := 0 + Z.of_nat (next_number (drawn w) mod Z.to_nat (Z.of_nat tiles_col - 0)) in
  cell_collision (player w) row col = false →
  result (_draw_foods_rounds 1 food increased) w = Done (increased + 1)
  ∧ get_block (grid (exec (_draw_foods_rounds 1 food increased) w)) row col = Some food.
Proof.
  intros Hg row col Hfree.
  destruct (set_block_reach _ _ (grid w) row col food Hg) as (g1 & Hset & Hg1).
  { pose proof (randrange_bounds 0 (Z.of_nat tiles_row) w ltac:(done)).
    pose proof (randrange_bounds 0 (Z.of_nat tiles_col) (drawn w) ltac:(done)).
    unfold in_reach, row, col, tiles_row, tiles_col in *. lia. }
  assert (_draw_foods_rounds 1 food increased w
          = (Done (increased + 1), set_grid g1 (drawn (drawn w)))) as Hrun.
  { cbn [_draw_foods_rounds].
    rewrite (bind_Done _ _ _ _ _ (randrange_run _ _ _)).
    rewrite (bind_Done _ _ _ _ _ (randrange_run _ _ _)).
    fold row col. unfold bind at 1, get.
    change (player (drawn (drawn w))) with (player w). rewrite Hfree.
    unfold bind at 1. change (grid (drawn (drawn w))) with (grid w). by rewrite Hset. }
  unfold exec, result. rewrite Hrun. split; [done |].
  by eapply get_block_set_block.
Qed.

(** C6 at a failing input.  The cells are [(0, 0)] and [(1, 0)], no two at
    one position.  The growth search picks the first cell and the x axis; its
    candidate is [(1, 0)], which the second cell occupies.
    [cell_collision(cell.x, cell.y)] hands [x] over as the row and [y] as the
    column, so it looks for a cell with [y = 1, x = 0] and finds none: the
    candidate is appended and two cells share [(1, 0)].  An Evolve key
    release with enough points does the same. *)
Theorem growth_duplicates_a_cell :
  let w := start_with [Cell.new 0 0; Cell.new 1 0] 4 1 HERB (always 0) in
  distinct_cells (cells (player w))
  ∧ cell_collision (player w) 0 1 = true
  ∧ cell_collision (player w) 1 0 = false
  ∧ cells (player (exec obtain_cell w)) = [Cell.new 0 0; Cell.new 1 0; Cell.new 1 0]
  ∧ ¬ distinct_cells (cells (player (exec obtain_cell w)))
  ∧ ¬ distinct_cells (cells (player (exec (on_key_release Key.G) w))).
Proof.
  unfold distinct_cells.
  split; [compute_done |].
  split; [by vm_compute |]. split; [by vm_compute |]. split; [by vm_compute |].
  split; compute_done.
Qed.

(** * More of the code *)

(** ** Subscripting the grid *)

Lemma py_index_mod len i :
  - Z.of_nat len ≤ i < Z.of_nat len →
  py_index len i = py_index len (i `mod` Z.of_nat len).
Proof.
  intros Hi. destruct (decide (0 ≤ i)).
  - by rewrite Z.mod_small by lia.
  - rewrite py_index_neg by lia.
    assert (i `mod` Z.of_nat len = i + Z.of_nat len) as ->.
    { symmetry. apply (Z.mod_unique_pos _ _ (-1)); lia. }
    rewrite py_index_nonneg by lia. done.
Qed.

(** X1. [Grid.get_block] returns a tile exactly for the coordinates from
    [-col] to [col - 1] and [-row] to [row - 1]; anywhere else the subscript
    raises. *)
Theorem get_block_returns_iff_in_reach row col (g : Grid) x y :
  grid_shaped row col g →
  is_Some (get_block g x y) ↔ in_reach row col x y.
Proof.
  intros Hg. split.
  - intros [k Hk]. by eapply get_block_Some_reach.
  - intros Hin. destruct (get_block_reach row col g x y Hg Hin) as [k Hk]. by exists k.
Qed.

Lemma get_block_returns_iff_in_reach_witness :
  grid_shaped 20 20 (Grid_init 20 20)
  ∧ (is_Some (get_block (Grid_init 20 20) (-20) 19) ↔ in_reach 20 20 (-20) 19).
Proof.
  split; [apply Grid_init_shaped |].
  apply (get_block_returns_iff_in_reach 20 20 (Grid_init 20 20) (-20) 19).
  apply Grid_init_shaped.
Defined.

Lemma set_block_Some_reach row col (g : Grid) x y v g' :
  grid_shaped row col g → set_block g x y v = Some g' → in_reach row col x y.
Proof.
  intros Hg. unfold set_block. intros Hset.
  destruct (py_index (length g) y) as [r|] eqn:Hr; [simpl in Hset | done].
  destruct (g !! r) as [line|] eqn:Hline; [simpl in Hset | done].
  destruct (py_index (length line) x) as [c|] eqn:Hc; [| done].
  apply py_index_Some in Hr as [_ Hr], Hc as [_ Hc].
  rewrite (grid_shaped_lookup _ _ _ _ _ Hg Hline) in Hc.
  destruct Hg as [Hlen _]. rewrite Hlen in Hr. split; lia.
Qed.

(** X2. [Grid.set_block] at coordinates the grid accepts returns, keeps the
    shape of the grid, and [get_block] at the same coordinates then returns
    the value written; at any other coordinates it raises. *)
Theorem set_block_writes_in_reach row col (g : Grid) x y v :
  grid_shaped row col g →
  (in_reach row col x y →
   ∃ g', set_block g x y v = Some g' ∧ grid_shaped row col g'
         ∧ get_block g' x y = Some v)
  ∧ (¬ in_reach row col x y → set_block g x y v = None).
Proof.
  intros Hg. split.
  - intros Hin. destruct (set_block_reach row col g x y v Hg Hin) as (g' & Hset & Hg').
    exists g'. split; [done |]. split; [done |]. by eapply get_block_set_block.
  - intros Hout. destruct (set_block g x y v) as [g'|] eqn:Hset; [| done].
    destruct Hout. by eapply set_block_Some_reach.
Qed.

Lemma set_block_writes_in_reach_witness :
  grid_shaped 20 20 (Grid_init 20 20)
  ∧ (in_reach 20 20 (-1) 3 →
     ∃ g', set_block (Grid_init 20 20) (-1) 3 2 = Some g' ∧ grid_shaped 20 20 g'
           ∧ get_block g' (-1) 3 = Some 2)
  ∧ (¬ in_reach 20 20 (-1) 3 → set_block (Grid_init 20 20) (-1) 3 2 = None).
Proof.
  split; [apply Grid_init_shaped |].
  apply (set_block_writes_in_reach 20 20 (Grid_init 20 20) (-1) 3 2).
  apply Grid_init_shaped.
Defined.

(** X3. A negative coordinate reads the tile counted from the far edge:
    [get_block(x, y)] is [get_block(x mod col, y mod row)]. *)
Theorem negative_subscript_wraps row col (g : Grid) x y :
  grid_shaped row col g →
  in_reach row col x y →
  get_block g x y = get_block g (x `mod` Z.of_nat col) (y `mod` Z.of_nat row).
Proof.
  intros Hg [Hx Hy]. unfold get_block. pose proof Hg as [Hlen _].
  rewrite Hlen, <- py_index_mod by done.
  destruct (py_index row y) as [r|]; [simpl | done].
  destruct (g !! r) as [line|] eqn:Hline; [simpl | done].
  rewrite (grid_shaped_lookup _ _ _ _ _ Hg Hline). by rewrite <- py_index_mod.
Qed.

Lemma negative_subscript_wraps_witness :
  let g := default [] (set_block (Grid_init 20 20) 19 18 3) in
  grid_shaped 20 20 g
  ∧ in_reach 20 20 (-1) (-2)
  ∧ get_block g (-1) (-2) = get_block g (-1 `mod` Z.of_nat 20) (-2 `mod` Z.of_nat 20).
Proof.
  intros g.
  assert (grid_shaped 20 20 g) as Hg by (split; [reflexivity | repeat constructor]).
  assert (in_reach 20 20 (-1) (-2)) as Hin by (unfold in_reach; simpl; lia).
  split; [exact Hg |]. split; [exact Hin |].
  exact (negative_subscript_wraps 20 20 g (-1) (-2) Hg Hin).
Defined.

(** ** Collisions, stamping and the spawner *)

(** X4. [Player.cell_collision(row, col)] answers true exactly when some cell
    has [y = row] and [x = col]. *)
Theorem cell_collision_finds_cell p row col :
  cell_collision p row col = true
  ↔ ∃ c, c ∈ cells p ∧ Cell.y c = row ∧ Cell.x c = col.
Proof.
  unfold cell_collision. induction (cells p) as [| c cs IH]; simpl.
  { split; [done |]. by intros (c & Hc%elem_of_nil & _). }
  destruct (bool_decide (Cell.y c = row) && bool_decide (Cell.x c = col)) eqn:Hhere.
  - split; [| done]. intros _. exists c.
    apply andb_true_iff in Hhere as [?%bool_decide_eq_true ?%bool_decide_eq_true].
    split; [left |]; done.
  - rewrite IH. split.
    + intros (c' & Hc' & Hyx). exists c'. split; [by right | done].
    + intros (c' & Hc' & Hy & Hx). apply elem_of_cons in Hc' as [-> | Hc'].
      * rewrite !bool_decide_eq_true_2 in Hhere by done. done.
      * by exists c'.
Qed.

Lemma set_block_keeps_value (g : Grid) x y v g' a b :
  set_block g x y v = Some g' → get_block g a b = Some v → get_block g' a b = Some v.
Proof.
  unfold set_block, get_block. intros Hset Hget.
  destruct (py_index (length g) y) as [r|] eqn:Hr; [simpl in Hset | done].
  destruct (g !! r) as [line|] eqn:Hline; [simpl in Hset | done].
  destruct (py_index (length line) x) as [c|] eqn:Hc; [simpl in Hset | done].
  injection Hset as <-. rewrite length_insert.
  destruct (py_index (length g) b) as [r'|] eqn:Hr'; [simpl in * | done].
  destruct (decide (r = r')) as [<- | Hne].
  - rewrite Hline in Hget. simpl in Hget.
    rewrite list_lookup_insert_eq by by eapply lookup_lt_Some. simpl.
    rewrite length_insert.
    destruct (py_index (length line) a) as [c'|] eqn:Hc'; [simpl in * | done].
    destruct (decide (c = c')) as [<- | Hne'].
    + apply list_lookup_insert_eq. by eapply lookup_lt_Some.
    + by rewrite list_lookup_insert_ne.
  - by rewrite list_lookup_insert_ne.
Qed.

Lemma stamp_covers cs v w :
  grid_shaped tiles_row tiles_col (grid w) →
  Forall (λ c, in_reach tiles_row tiles_col (Cell.x c) (Cell.y c)) cs →
  ∃ g', stamp cs v w = (Done tt, set_grid g' w)
    ∧ (∀ a b, get_block (grid w) a b = Some v → get_block g' a b = Some v)
    ∧ (∀ c, c ∈ cs → get_block g' (Cell.x c) (Cell.y c) = Some v).
Proof.
  intros Hg Hcs. revert w Hg.
  induction Hcs as [| c cs Hc _ IH]; intros w Hg.
  { exists (grid w). split; [by destruct w |]. split; [done |]. by intros c ?%elem_of_nil. }
  destruct (set_block_reach _ _ (grid w) (Cell.x c) (Cell.y c) v Hg Hc) as (g1 & Hset & Hg1).
  destruct (IH (set_grid g1 w) Hg1) as (g' & Hrun & Hkeep & Hcover).
  exists g'. split; [| split].
  - cbn [stamp]. unfold bind at 1, get. unfold bind at 1. rewrite Hset. cbn [subscript ret].
    unfold bind at 1, modify. by rewrite Hrun.
  - intros a b Hab. apply Hkeep. simpl. by eapply set_block_keeps_value.
  - intros c' [-> | Hc']%elem_of_cons; [| by apply Hcover].
    apply Hkeep. simpl. by eapply get_block_set_block.
Qed.

(** X5. The first loop of [draw_player]: once every cell has been stamped with
    [value], the tile of every cell reads [value] (cells on one tile write
    the same value), and nothing but the grid has changed. *)
Theorem stamped_cells_read_value value w :
  wf w →
  ∃ g', stamp (cells (player w)) value w = (Done tt, set_grid g' w)
    ∧ ∀ c, c ∈ cells (player w) → get_block g' (Cell.x c) (Cell.y c) = Some value.
Proof.
  intros [Hg Hc _ _].
  destruct (stamp_covers (cells (player w)) value w Hg Hc) as (g' & Hrun & _ & Hcover).
  by exists g'.
Qed.

Lemma stamped_cells_read_value_witness :
  let w := start_with [Cell.new 3 4; Cell.new (-1) 0] 0 1 HERB (always 0) in
  wf w
  ∧ ∃ g', stamp (cells (player w)) PLAYER w = (Done tt, set_grid g' w)
      ∧ ∀ c, c ∈ cells (player w) → get_block g' (Cell.x c) (Cell.y c) = Some PLAYER.
Proof.
  intros w. assert (wf w) as Hw by concrete_wf.
  split; [exact Hw |]. exact (stamped_cells_read_value PLAYER w Hw).
Defined.

(** X6. One round of [_draw_foods] whose pick is taken by a cell (a cell with
    [y = row] and [x = col]) draws its two numbers and does nothing else: no
    tile is written and the count stays. *)
Theorem spawner_skips_colliding_pick food increased w :
  let row := 0 + Z.of_nat (next_number w mod Z.to_nat (Z.of_nat tiles_row - 0)) in
  let col := 0 + Z.of_nat (next_number (drawn w) mod Z.to_nat (Z.of_nat tiles_col - 0)) in
  cell_collision (player w) row col = true →
  _draw_foods_rounds 1 food increased w = (Done increased, drawn (drawn w)).
Proof.
  intros row col Hhit. cbn [_draw_foods_rounds].
  rewrite (bind_Done _ _ _ _ _ (randrange_run _ _ _)).
  rewrite (bind_Done _ _ _ _ _ (randrange_run _ _ _)).
  fold row col. unfold bind at 1, get.
  change (player (drawn (drawn w))) with (player w). by rewrite Hhit.
Qed.

Lemma spawner_skips_colliding_pick_witness :
  let w := start (always 0) in
  cell_collision (player w)
    (0 + Z.of_nat (next_number w mod Z.to_nat (Z.of_nat tiles_row - 0)))
    (0 + Z.of_nat (next_number (drawn w) mod Z.to_nat (Z.of_nat tiles_col - 0))) = true
  ∧ _draw_foods_rounds 1 HERB_FOOD 0 w = (Done 0, drawn (drawn w)).
Proof.
  intros w.
  assert (cell_collision (player w)
            (0 + Z.of_nat (next_number w mod Z.to_nat (Z.of_nat tiles_row - 0)))
            (0 + Z.of_nat (next_number (drawn w) mod Z.to_nat (Z.of_nat tiles_col - 0)))
          = true) as Hhit by reflexivity.
  split; [exact Hhit |]. exact (spawner_skips_colliding_pick HERB_FOOD 0 w Hhit).
Defined.

(** X7. One round of [_draw_foods] whose pick is not taken writes the food and
    counts it; the tile written is the one [get_block(row, col)] reads, that
    is column [row] of row [col]. *)
Theorem spawner_writes_free_pick food increased w :
  grid_shaped tiles_row tiles_col (grid w) →
  let row := 0 + Z.of_nat (next_number w mod Z.to_nat (Z.of_nat tiles_row - 0)) in
  let col := 0 + Z.of_nat (next_number (drawn w) mod Z.to_nat (Z.of_nat tiles_col - 0)) in
  cell_collision (player w) row col = false →
  result (_draw_foods_rounds 1 food increased) w = Done (increased + 1)
  ∧ get_block (grid (exec (_draw_foods_rounds 1 food increased) w)) row col = Some food
  ∧ keeps w (exec (_draw_foods_rounds 1 food increased) w).
Proof.
  intros Hg row col Hfree.
  destruct (set_block_reach _ _ (grid w) row col food Hg) as (g1 & Hset & Hg1).
  { pose proof (randrange_bounds 0 (Z.of_nat tiles_row) w ltac:(done)).
    pose proof (randrange_bounds 0 (Z.of_nat tiles_col) (drawn w) ltac:(done)).
    unfold in_reach, row, col, tiles_row, tiles_col in *. lia. }
  assert (_draw_foods_rounds 1 food increased w
          = (Done (increased + 1), set_grid g1 (drawn (drawn w)))) as Hrun.
  { cbn [_draw_foods_rounds].
    rewrite (bind_Done _ _ _ _ _ (randrange_run _ _ _)).
    rewrite (bind_Done _ _ _ _ _ (randrange_run _ _ _)).
    fold row col. unfold bind at 1, get.
    change (player (drawn (drawn w))) with (player w). rewrite Hfree.
    unfold bind at 1. change (grid (drawn (drawn w))) with (grid w). by rewrite Hset. }
  unfold exec, result. rewrite Hrun. split; [done |].
  split; [by eapply get_block_set_block | done].
Qed.

Lemma spawner_writes_free_pick_witness :
  let w := start (always 7) in
  grid_shaped tiles_row tiles_col (grid w)
  ∧ cell_collision (player w)
      (0 + Z.of_nat (next_number w mod Z.to_nat (Z.of_nat tiles_row - 0)))
      (0 + Z.of_nat (next_number (drawn w) mod Z.to_nat (Z.of_nat tiles_col - 0))) = false
  ∧ result (_draw_foods_rounds 1 CARN_FOOD 0) w = Done (0 + 1)
  ∧ get_block (grid (exec (_draw_foods_rounds 1 CARN_FOOD 0) w))
      (0 + Z.of_nat (next_number w mod Z.to_nat (Z.of_nat tiles_row - 0)))
      (0 + Z.of_nat (next_number (drawn w) mod Z.to_nat (Z.of_nat tiles_col - 0)))
    = Some CARN_FOOD
  ∧ keeps w (exec (_draw_foods_rounds 1 CARN_FOOD 0) w).
Proof.
  intros w.
  assert (grid_shaped tiles_row tiles_col (grid w)) as Hg by apply (wf_grid _ (start_wf _)).
  assert (cell_collision (player w)
            (0 + Z.of_nat (next_number w mod Z.to_nat (Z.of_nat tiles_row - 0)))
            (0 + Z.of_nat (next_number (drawn w) mod Z.to_nat (Z.of_nat tiles_col - 0)))
          = false) as Hfree by reflexivity.
  split; [exact Hg |]. split; [exact Hfree |].
  exact (spawner_writes_free_pick CARN_FOOD 0 w Hg Hfree).
Defined.

(** ** The food counters *)

Lemma _draw_foods_rounds_count n food increased w :
  grid_shaped tiles_row tiles_col (grid w) →
  ∃ k w', _draw_foods_rounds n food increased w = (Done k, w')
    ∧ increased ≤ k ≤ increased + Z.of_nat n
    ∧ herb_foods w' = herb_foods w ∧ carn_foods w' = carn_foods w
    ∧ grid_shaped tiles_row tiles_col (grid w').
Proof.
  revert increased w. induction n as [| n IH]; intros increased w Hg.
  { exists increased, w. split; [done |]. split; [lia | done]. }
  cbn [_draw_foods_rounds].
  rewrite (bind_Done _ _ _ _ _ (randrange_run _ _ _)).
  rewrite (bind_Done _ _ _ _ _ (randrange_run _ _ _)).
  set (r := 0 + Z.of_nat (next_number w mod _)).
  set (c := 0 + Z.of_nat (next_number (drawn w) mod _)).
  assert (0 ≤ r < Z.of_nat tiles_row) as Hr by (apply randrange_bounds; done).
  assert (0 ≤ c < Z.of_nat tiles_col) as Hc by (apply randrange_bounds; done).
  unfold bind at 1, get.
  destruct (cell_collision _ r c).
  - destruct (IH increased (drawn (drawn w)) Hg) as (k & w' & Hrun & Hk & Hh & Hcn & Hg').
    exists k, w'. split; [done |]. split; [lia | done].
  - destruct (set_block_reach _ _ (grid w) r c food Hg) as (g1 & Hset & Hg1).
    { unfold in_reach, tiles_row, tiles_col in *. lia. }
    unfold bind at 1. cbn [grid drawn set_random]. rewrite Hset. cbn [subscript ret].
    unfold bind at 1, modify.
    destruct (IH (increased + 1) (set_grid g1 (drawn (drawn w))) Hg1)
      as (k & w' & Hrun & Hk & Hh & Hcn & Hg').
    exists k, w'. split; [done |]. split; [lia | done].
Qed.

Lemma _draw_foods_count food amount w :
  grid_shaped tiles_row tiles_col (grid w) →
  ∃ k w', _draw_foods food amount w = (Done k, w')
    ∧ 0 ≤ k ≤ Z.max 0 amount
    ∧ herb_foods w' = herb_foods w ∧ carn_foods w' = carn_foods w
    ∧ grid_shaped tiles_row tiles_col (grid w').
Proof.
  intros Hg. unfold _draw_foods. case_bool_decide.
  - exists 0, w. split; [done |]. split; [lia | done].
  - destruct (_draw_foods_rounds_count (Z.to_nat amount) food 0 w Hg)
      as (k & w' & Hrun & Hk & Hrest).
    exists k, w'. split; [done |]. split; [lia | done].
Qed.

Lemma draw_foods_counts w :
  grid_shaped tiles_row tiles_col (grid w) →
  ∃ w', draw_foods w = (Done tt, w')
    ∧ herb_foods w ≤ herb_foods w' ≤ Z.max (herb_foods w) max_food
    ∧ carn_foods w ≤ carn_foods w' ≤ Z.max (carn_foods w) max_food
    ∧ grid_shaped tiles_row tiles_col (grid w').
Proof.
  intros Hg. unfold draw_foods. unfold bind at 1, get.
  destruct (_draw_foods_count HERB_FOOD (max_food - herb_foods w) w Hg)
    as (h & w1 & Hrun1 & Hh & Hh1 & Hc1 & Hg1).
  rewrite (bind_Done _ _ _ _ _ Hrun1). unfold bind at 1, modify.
  set (w1' := set_herb_foods _ w1).
  destruct (_draw_foods_count CARN_FOOD (max_food - carn_foods w) w1' Hg1)
    as (c & w2 & Hrun2 & Hc & Hh2 & Hc2 & Hg2).
  rewrite (bind_Done _ _ _ _ _ Hrun2). unfold modify.
  eexists. split; [done |]. simpl. rewrite Hh2. simpl.
  split; [lia |]. split; [lia | done].
Qed.

(** X8. [Controller.draw_foods] returns on a grid of the configured shape; it
    never lowers a food counter and never takes one past the cap of 10 (a
    counter already past the cap stays where it is). *)
Theorem draw_foods_tops_up w :
  grid_shaped tiles_row tiles_col (grid w) →
  ∃ w', draw_foods w = (Done tt, w')
    ∧ herb_foods w ≤ herb_foods w' ≤ Z.max (herb_foods w) max_food
    ∧ carn_foods w ≤ carn_foods w' ≤ Z.max (carn_foods w) max_food
    ∧ grid_shaped tiles_row tiles_col (grid w').
Proof. apply draw_foods_counts. Qed.

Lemma draw_foods_tops_up_witness :
  let w := start (always 7) in
  grid_shaped tiles_row tiles_col (grid w)
  ∧ ∃ w', draw_foods w = (Done tt, w')
      ∧ herb_foods w ≤ herb_foods w' ≤ Z.max (herb_foods w) max_food
      ∧ carn_foods w ≤ carn_foods w' ≤ Z.max (carn_foods w) max_food
      ∧ grid_shaped tiles_row tiles_col (grid w').
Proof.
  intros w.
  assert (grid_shaped tiles_row tiles_col (grid w)) as Hg by apply (wf_grid _ (start_wf _)).
  split; [exact Hg |]. exact (draw_foods_tops_up w Hg).
Defined.

Lemma draw_player_capped value w : wf w → capped w → capped (exec (draw_player value) w).
Proof.
  intros Hw [Hh Hc]. pose proof Hw as [Hg Hcs _ _].
  unfold exec, draw_player. unfold bind at 1, get.
  destruct (stamp_run (cells (player w)) value w Hg Hcs) as (g1 & Hrun1 & Hg1).
  rewrite (bind_Done _ _ _ _ _ Hrun1).
  destruct (draw_foods_counts (set_grid g1 w) Hg1) as (w' & -> & Hh' & Hc' & _).
  simpl in *. split; lia.
Qed.

(** ** Invariants of the loop over the cells *)

Lemma exec_suppress body w : exec (suppress body) w = exec body w.
Proof.
  unfold exec, suppress. destruct (body w) as [[a | []] w']; done.
Qed.

(** A property that every round of the loop keeps holds when the loop is
    over, however it ends. *)
Lemma for_cells_invariant (P : World → Prop) direction amount :
  direction = s_x ∨ direction = s_y →
  (∀ w w1 i c current,
     P w → cells (player w) !! i = Some c →
     get_block (grid w) (target direction amount c).1 (target direction amount c).2
     = Some current →
     rolled w w1 →
     P (exec (move_cell i direction amount)
             (resolved current (target direction amount c).1 (target direction amount c).2
                       w1))) →
  ∀ fuel i w, P w → P (exec (for_cells fuel i direction (Some amount)) w).
Proof.
  intros Hdir Hstep fuel. induction fuel as [| fuel IH]; intros i w HP; [done |].
  destruct (cells (player w) !! i) as [c|] eqn:Hc.
  2: { unfold exec. by rewrite for_cells_end. }
  destruct (get_block (grid w) (target direction amount c).1 (target direction amount c).2)
    as [current|] eqn:Hget.
  2: { unfold exec. by rewrite (for_cells_abort _ _ _ _ _ c). }
  destruct (for_cells_round fuel i direction amount w c current Hdir Hc Hget)
    as (w1 & Hr & Hrun).
  unfold exec at 1. rewrite Hrun. unfold bind at 1.
  change (move_cell i direction amount ?w')
    with (Done tt, exec (move_cell i direction amount) w').
  cbv beta iota. apply IH. by eapply Hstep.
Qed.

(** What a key release is once drawing is done, as a statement on worlds. *)
Lemma on_key_release_exec key w :
  wf w →
  ∃ w2, wf w2 ∧ keeps w w2
    ∧ w2 = exec (draw_player 0 ;; discharge) w
    ∧ herb_foods w2 = herb_foods (exec (draw_player 0) w)
    ∧ carn_foods w2 = carn_foods (exec (draw_player 0) w)
    ∧ on_key_release key w
      = match actions (player w) key with
        | Some (direction, amount) =>
            suppress (for_cells (length (cells (player w))) 0 direction amount) w2
        | None => (Done tt, w2)
        end.
Proof.
  intros Hw. destruct (on_key_release_prelude key w Hw)
    as (w1 & g' & Hdraw & _ & _ & Hdis & Hw2 & Hk2 & _ & Hrun).
  exists (set_grid g' w1). split; [done |]. split; [done |].
  split; [| split; [| split; [| done]]].
  - unfold exec. by rewrite (bind_Done _ _ _ _ _ Hdraw), Hdis.
  - unfold exec. by rewrite Hdraw.
  - unfold exec. by rewrite Hdraw.
Qed.

Lemma resolved_player current x y w :
  player (resolved current x y w) = player w
  ∨ player (resolved current x y w)
    = set_points (points (player w) + food (features (player w))) (player w).
Proof. unfold resolved. repeat case_match; auto. Qed.

Lemma resolved_counters current x y w :
  herb_foods w - 1 ≤ herb_foods (resolved current x y w) ≤ herb_foods w
  ∧ carn_foods w - 1 ≤ carn_foods (resolved current x y w) ≤ carn_foods w
  ∧ herb_foods w + carn_foods w - 1
    ≤ herb_foods (resolved current x y w) + carn_foods (resolved current x y w).
Proof. unfold resolved. repeat case_match; simpl; lia. Qed.

(** A property of worlds that the roll, the resolution of a tile, the move
    of a cell, an evolution and a restart all keep is kept by the command of
    every key release. *)
Lemma key_release_invariant (P : World → Prop) :
  (∀ w w', rolled w w' → P w → P w') →
  (∀ w current x y, P w → P (resolved current x y w)) →
  (∀ w i direction amount, P w → P (exec (move_cell i direction amount) w)) →
  (∀ w p' r, P w →
     level p' = level (player w) + 1 → points p' = 0 →
     loses p' = loses (player w) →
     cells_grown (cells (player w)) (cells p') →
     (features_ok (features (player w)) → features_ok (features p')) →
     P (set_player p' (set_random r w))) →
  (∀ fd r, P (mkWorld (Grid_init tiles_row tiles_col)
                      (mkPlayer [Cell.new 0 0] 0 1 0 (mkFeatures 1 1 fd))
                      0 0 None None 0 r)) →
  ∀ key w, wf w →
    P (exec (draw_player 0 ;; discharge) w) → P (exec (on_key_release key) w).
Proof.
  intros Hroll Hres Hmove Hevolve Hrestart key w Hw HP.
  destruct (on_key_release_exec key w Hw) as (w2 & Hw2 & (Hpl & _) & Hw2eq & _ & _ & Hrun).
  rewrite <- Hw2eq in HP. clear Hw2eq.
  assert (cells (player w2) ≠ []) as Hne by apply Hw2.
  assert (∀ direction amount, direction = s_x ∨ direction = s_y →
            P (exec (suppress (for_cells (length (cells (player w))) 0 direction
                                         (Some amount))) w2)) as Hdir.
  { intros direction amount Hd. rewrite exec_suppress.
    apply for_cells_invariant; [done | | done].
    intros wa wb i c current HPa _ _ Hr. apply Hmove, Hres. by eapply Hroll. }
  unfold exec at 1. rewrite Hrun.
  destruct key; cbn [actions]; try (apply Hdir; by auto); [| | done].
  - rewrite <- Hpl.
    destruct (update_player_evolve (points (player w2)) w2 Hne) as (w3 & Hr & Hev).
    destruct (cells (player w2)) as [| c cs] eqn:Hcs; [done |]. cbn [length].
    unfold suppress. rewrite for_cells_command by (done || by rewrite Hcs).
    pose proof (Hroll _ _ Hr HP) as HP3.
    case_bool_decide.
    + destruct Hev as (p' & r & -> & Hlvl & Hpts & Hlos & Hgrown & Hf). cbn [snd].
      apply Hevolve; try done.
      * by rewrite Hlvl, (rolled_level _ _ Hr).
      * rewrite Hpts. lia.
      * by rewrite (rolled_features _ _ Hr).
    + by rewrite Hev.
  - rewrite <- Hpl. destruct (cells (player w2)) as [| c cs] eqn:Hcs; [done |]. cbn [length].
    unfold suppress. rewrite for_cells_command by (done || by rewrite Hcs).
    destruct (roll_for_death_run w2) as (w3 & Hroll3 & Hr).
    unfold update_player. rewrite (bind_Done _ _ _ _ _ Hroll3). str_tests.
    destruct (Player_init_run w3) as (fd & Hinit). rewrite (bind_Done _ _ _ _ _ Hinit).
    apply Hrestart.
Qed.

(** ** What every key release keeps *)

(** X9. [Controller.on_key_release] on a well-formed world returns for every
    key (no exception leaves it) and leaves a well-formed world: the grid
    keeps its 20 x 20 shape, the player keeps at least one cell, and every
    cell and the pending task stay where the grid can be subscripted. *)
Theorem key_release_returns_well_formed key w :
  wf w → ∃ w', on_key_release key w = (Done tt, w') ∧ wf w'.
Proof. apply on_key_release_wf. Qed.

Lemma key_release_returns_well_formed_witness :
  let w := start (always 66) in
  wf w ∧ ∃ w', on_key_release Key.A w = (Done tt, w') ∧ wf w'.
Proof.
  intros w. assert (wf w) as Hw by apply start_wf.
  split; [exact Hw |]. exact (key_release_returns_well_formed Key.A w Hw).
Defined.

(** X10. [Controller.on_draw] on a well-formed world returns and leaves a
    well-formed world; the player, the pending task, the event and its
    timer are as before. *)
Theorem frame_returns_well_formed w :
  wf w → ∃ w', on_draw w = (Done tt, w') ∧ wf w' ∧ keeps w w'.
Proof. apply on_draw_wf. Qed.

Lemma frame_returns_well_formed_witness :
  let w := start (always 66) in
  wf w ∧ ∃ w', on_draw w = (Done tt, w') ∧ wf w' ∧ keeps w w'.
Proof.
  intros w. assert (wf w) as Hw by apply start_wf.
  split; [exact Hw |]. exact (frame_returns_well_formed w Hw).
Defined.

Lemma Grid_init_reads_empty row col x y :
  in_reach row col x y → get_block (Grid_init row col) x y = Some EMPTY.
Proof.
  intros [Hx Hy]. unfold get_block, Grid_init. rewrite length_replicate.
  destruct (py_index_is_Some row y Hy) as (ri & -> & Hri). simpl.
  rewrite lookup_replicate_2 by done. simpl. rewrite length_replicate.
  destruct (py_index_is_Some col x Hx) as (ci & -> & Hci). simpl.
  by rewrite lookup_replicate_2.
Qed.

(** X11. [Controller.__init__] returns whatever the generator hands out, and
    leaves a well-formed world: one cell at [(0, 0)], no points, level 1, no
    loss, food multiplier and speed 1, empty counters, no pending task, no
    event, and a grid that reads 0 wherever it can be subscripted. *)
Theorem constructor_world r :
  Controller_init r = (Done tt, start r)
  ∧ wf (start r)
  ∧ (∃ fd, player (start r) = mkPlayer [Cell.new 0 0] 0 1 0 (mkFeatures 1 1 fd))
  ∧ herb_foods (start r) = 0 ∧ carn_foods (start r) = 0
  ∧ pending_task (start r) = None ∧ event (start r) = None
  ∧ event_timer (start r) = 0
  ∧ ∀ x y, in_reach tiles_row tiles_col x y → get_block (grid (start r)) x y = Some EMPTY.
Proof.
  split; [| split; [apply start_wf |]].
  - unfold start, Controller_init.
    match goal with |- context [bind Player_init _ ?w0] =>
      destruct (Player_init_run w0) as (fd & Hinit); rewrite (bind_Done _ _ _ _ _ Hinit) end.
    done.
  - unfold start, Controller_init.
    match goal with |- context [bind Player_init _ ?w0] =>
      destruct (Player_init_run w0) as (fd & Hinit); rewrite (bind_Done _ _ _ _ _ Hinit) end.
    unfold modify.
    cbn [snd player herb_foods carn_foods pending_task event event_timer grid
         set_player drawn set_random].
    split; [by exists fd |]. do 5 (split; [done |]).
    intros x y Hin. by apply Grid_init_reads_empty.
Qed.

(** X12. The player's numbers stay in range over every key release: points at
    least 0, level at least 1, losses at least 0, food multiplier and speed at
    least 1. *)
Theorem stats_stay_in_range key w :
  wf w → stats_ok (player w) → stats_ok (player (exec (on_key_release key) w)).
Proof.
  intros Hw Hs.
  apply (key_release_invariant (λ w, stats_ok (player w))).
  - intros wa wb Hr (Hp & Hl & Hlo & Hf). unfold stats_ok.
    rewrite (rolled_points _ _ Hr), (rolled_level _ _ Hr), (rolled_loses _ _ Hr),
      (rolled_features _ _ Hr).
    do 2 (split; [done |]). split; [destruct (dies wa); lia | done].
  - intros wa current x y (Hp & Hl & Hlo & Hf).
    destruct (resolved_player current x y wa) as [-> | ->]; [done |].
    split; [| done]. destruct Hf. simpl. lia.
  - done.
  - intros wa p' r (Hp & Hl & Hlo & Hf) Hlvl Hpts Hlos _ Hfok. unfold stats_ok. simpl.
    rewrite Hlvl, Hpts, Hlos. split; [lia |]. split; [lia |]. split; [done | auto].
  - intros fd r. unfold stats_ok, features_ok. simpl. lia.
  - done.
  - destruct (on_key_release_exec key w Hw) as (w2 & _ & (Hpl & _) & Heq & _).
    by rewrite <- Heq, Hpl.
Qed.

Lemma stats_stay_in_range_witness :
  let w := with_tile 5 6 HERB_FOOD (start_with [Cell.new 5 5] 0 1 HERB (always 0)) in
  wf w ∧ stats_ok (player w) ∧ stats_ok (player (exec (on_key_release Key.W) w)).
Proof.
  intros w. assert (wf w) as Hw by concrete_wf.
  assert (stats_ok (player w)) as Hs by (unfold stats_ok, features_ok; simpl; lia).
  split; [exact Hw |]. split; [exact Hs |]. exact (stats_stay_in_range Key.W w Hw Hs).
Defined.

(** X13. Food counters that are at most the cap of 10 are at most the cap after
    every key release: drawing tops them up to the cap at most, eating lowers
    them, a restart empties them. *)
Theorem food_counters_stay_capped key w :
  wf w → capped w → capped (exec (on_key_release key) w).
Proof.
  intros Hw Hc.
  apply (key_release_invariant capped).
  - intros wa wb Hr [Hh Hcn]. unfold capped.
    by rewrite (rolled_herb _ _ Hr), (rolled_carn _ _ Hr).
  - intros wa current x y [Hh Hcn].
    destruct (resolved_counters current x y wa) as (Hh' & Hcn' & _).
    unfold capped. lia.
  - done.
  - done.
  - intros fd r. unfold capped, max_food. simpl. lia.
  - done.
  - destruct (on_key_release_exec key w Hw) as (w2 & _ & _ & Heq & Hh & Hcn & _).
    pose proof (draw_player_capped 0 w Hw Hc) as [Hh' Hcn']. unfold capped.
    rewrite <- Heq, Hh, Hcn. done.
Qed.

Lemma food_counters_stay_capped_witness :
  let w := with_tile 5 6 HERB_FOOD (start_with [Cell.new 5 5] 0 1 HERB (always 0)) in
  wf w ∧ capped w ∧ capped (exec (on_key_release Key.W) w).
Proof.
  intros w. assert (wf w) as Hw by concrete_wf.
  assert (capped w) as Hc by (unfold capped, max_food; simpl; lia).
  split; [exact Hw |]. split; [exact Hc |]. exact (food_counters_stay_capped Key.W w Hw Hc).
Defined.

(** ** What a move does and does not do *)

(** X14. A direction key release never changes the level or the features and
    never adds a cell; losses do not go down, and with a food multiplier that
    is not negative neither do the points. *)
Theorem move_keeps_level_and_features key direction amount w :
  wf w →
  actions (player w) key = Some (direction, Some amount) →
  direction = s_x ∨ direction = s_y →
  let w' := exec (on_key_release key) w in
  level (player w') = level (player w)
  ∧ features (player w') = features (player w)
  ∧ (length (cells (player w')) ≤ length (cells (player w)))%nat
  ∧ loses (player w) ≤ loses (player w')
  ∧ (0 ≤ food (features (player w)) → points (player w) ≤ points (player w')).
Proof.
  intros Hw Hact Hdir w'. subst w'.
  destruct (on_key_release_exec key w Hw) as (w2 & Hw2 & (Hpl & _) & _ & _ & _ & Hrun).
  unfold exec at 1 2 3 4 5. rewrite Hrun, Hact.
  change (snd (suppress ?m w2)) with (exec (suppress m) w2). rewrite exec_suppress.
  set (P := λ wa : World,
         level (player wa) = level (player w)
         ∧ features (player wa) = features (player w)
         ∧ (length (cells (player wa)) ≤ length (cells (player w)))%nat
         ∧ loses (player w) ≤ loses (player wa)
         ∧ (0 ≤ food (features (player w)) → points (player w) ≤ points (player wa))).
  apply (for_cells_invariant P direction amount Hdir).
  - intros wa wb i c current (Hl & Hf & Hn & Hlo & Hp) _ _ Hr. unfold P.
    cbn [exec move_cell modify_player modify snd player set_player set_cells
         level features cells loses points].
    rewrite length_alter, resolved_cells, resolved_loses.
    pose proof (rolled_length _ _ Hr).
    assert (loses (player wa) ≤ loses (player wb))
      by (rewrite (rolled_loses _ _ Hr); destruct (dies wa); lia).
    destruct (resolved_player current (target direction amount c).1
                (target direction amount c).2 wb) as [-> | ->];
      cbn [level features points set_points];
      rewrite (rolled_level _ _ Hr), (rolled_features _ _ Hr), (rolled_points _ _ Hr);
      (split; [done |]); (split; [done |]); (split; [lia |]); (split; [lia |]).
    + done.
    + intros Hfood. specialize (Hp Hfood). rewrite Hf. lia.
  - unfold P. by rewrite Hpl.
Qed.

Lemma move_keeps_level_and_features_witness :
  let w := with_tile 5 6 HERB_FOOD (start_with [Cell.new 5 5] 0 1 HERB (always 0)) in
  wf w
  ∧ actions (player w) Key.W = Some (s_y, Some 1)
  ∧ (s_y = s_x ∨ s_y = s_y)
  ∧ level (player (exec (on_key_release Key.W) w)) = level (player w)
  ∧ features (player (exec (on_key_release Key.W) w)) = features (player w)
  ∧ (length (cells (player (exec (on_key_release Key.W) w))) ≤ length (cells (player w)))%nat
  ∧ loses (player w) ≤ loses (player (exec (on_key_release Key.W) w))
  ∧ (0 ≤ food (features (player w))
     → points (player w) ≤ points (player (exec (on_key_release Key.W) w))).
Proof.
  intros w. assert (wf w) as Hw by concrete_wf.
  assert (actions (player w) Key.W = Some (s_y, Some 1)) as Hact by reflexivity.
  assert (s_y = s_x ∨ s_y = s_y) as Hdir by (right; reflexivity).
  do 3 (split; [assumption |]).
  exact (move_keeps_level_and_features Key.W s_y 1 w Hw Hact Hdir).
Defined.

Lemma for_cells_timer direction amount fuel i w :
  direction = s_x ∨ direction = s_y →
  event_timer w ≤ event_timer (exec (for_cells fuel i direction (Some amount)) w)
  ≤ event_timer w + Z.of_nat fuel.
Proof.
  intros Hdir. revert i w. induction fuel as [| fuel IH]; intros i w.
  { unfold exec. simpl. lia. }
  destruct (cells (player w) !! i) as [c|] eqn:Hc.
  2: { unfold exec. rewrite for_cells_end by done. simpl. lia. }
  destruct (get_block (grid w) (target direction amount c).1 (target direction amount c).2)
    as [current|] eqn:Hget.
  2: { unfold exec. rewrite (for_cells_abort _ _ _ _ _ c) by done. simpl. lia. }
  destruct (for_cells_round fuel i direction amount w c current Hdir Hc Hget)
    as (w1 & Hr & Hrun).
  set (w3 := exec (move_cell i direction amount)
                  (resolved current (target direction amount c).1
                            (target direction amount c).2 w1)).
  assert (exec (for_cells (Datatypes.S fuel) i direction (Some amount)) w
          = exec (for_cells fuel (Datatypes.S i) direction (Some amount)) w3) as ->
    by (unfold exec at 1; by rewrite Hrun).
  assert (event_timer w3 = event_timer w + 1) as Ht
    by (unfold w3; simpl; by rewrite resolved_timer, (rolled_timer _ _ Hr)).
  specialize (IH (Datatypes.S i) w3). lia.
Qed.

(** X15. A direction key release calls [update_player] at most once for each
    cell the player has when the key is released: [event_timer] grows by
    at most the number of cells, and never shrinks. *)
Theorem move_rolls_at_most_once_per_cell key direction amount w :
  wf w →
  actions (player w) key = Some (direction, Some amount) →
  direction = s_x ∨ direction = s_y →
  event_timer w ≤ event_timer (exec (on_key_release key) w)
  ≤ event_timer w + Z.of_nat (length (cells (player w))).
Proof.
  intros Hw Hact Hdir.
  destruct (on_key_release_exec key w Hw)
    as (w2 & Hw2 & (_ & _ & _ & Ht & _) & _ & _ & _ & Hrun).
  unfold exec. rewrite Hrun, Hact.
  change (snd (suppress ?m w2)) with (exec (suppress m) w2). rewrite exec_suppress.
  pose proof (for_cells_timer direction amount (length (cells (player w))) 0 w2 Hdir).
  lia.
Qed.

Lemma move_rolls_at_most_once_per_cell_witness :
  let w := start_with [Cell.new 18 0; Cell.new 19 0] 0 1 HERB (always 0) in
  wf w
  ∧ actions (player w) Key.D = Some (s_x, Some 1)
  ∧ (s_x = s_x ∨ s_x = s_y)
  ∧ event_timer w ≤ event_timer (exec (on_key_release Key.D) w)
    ≤ event_timer w + Z.of_nat (length (cells (player w))).
Proof.
  intros w. assert (wf w) as Hw by concrete_wf.
  assert (actions (player w) Key.D = Some (s_x, Some 1)) as Hact by reflexivity.
  assert (s_x = s_x ∨ s_x = s_y) as Hdir by (left; reflexivity).
  do 3 (split; [assumption |]).
  exact (move_rolls_at_most_once_per_cell Key.D s_x 1 w Hw Hact Hdir).
Defined.

(** X16. A move whose first cell has its target where the grid cannot be
    subscripted is given up before anything is resolved: the key release has
    drawn and written the pending tile, and that is all. *)
Theorem blocked_move_only_draws key direction amount w c cs :
  wf w →
  actions (player w) key = Some (direction, Some amount) →
  direction = s_x ∨ direction = s_y →
  cells (player w) = c :: cs →
  ¬ in_reach tiles_row tiles_col (target direction amount c).1 (target direction amount c).2 →
  on_key_release key w = (Done tt, exec (draw_player 0 ;; discharge) w)
  ∧ keeps w (exec (on_key_release key) w).
Proof.
  intros Hw Hact Hdir Hcs Hout.
  destruct (on_key_release_exec key w Hw) as (w2 & Hw2 & Hk & <- & _ & _ & Hrun).
  assert (on_key_release key w = (Done tt, w2)) as Hrun'.
  { rewrite Hrun, Hact, Hcs. cbn [length].
    apply (for_cells_first_target_out_of_reach _ _ _ _ c); [done | apply Hw2 | | done].
    destruct Hk as [-> _]. by rewrite Hcs. }
  split; [done |]. unfold exec. by rewrite Hrun'.
Qed.

Lemma blocked_move_only_draws_witness :
  let w := start_with [Cell.new 19 0; Cell.new 18 0] 0 1 HERB (always 0) in
  wf w
  ∧ actions (player w) Key.D = Some (s_x, Some 1)
  ∧ (s_x = s_x ∨ s_x = s_y)
  ∧ cells (player w) = [Cell.new 19 0; Cell.new 18 0]
  ∧ ¬ in_reach tiles_row tiles_col (target s_x 1 (Cell.new 19 0)).1
                                    (target s_x 1 (Cell.new 19 0)).2
  ∧ on_key_release Key.D w = (Done tt, exec (draw_player 0 ;; discharge) w)
  ∧ keeps w (exec (on_key_release Key.D) w).
Proof.
  intros w. assert (wf w) as Hw by concrete_wf.
  assert (actions (player w) Key.D = Some (s_x, Some 1)) as Hact by reflexivity.
  assert (s_x = s_x ∨ s_x = s_y) as Hdir by (left; reflexivity).
  assert (cells (player w) = [Cell.new 19 0; Cell.new 18 0]) as Hcs by reflexivity.
  assert (¬ in_reach tiles_row tiles_col (target s_x 1 (Cell.new 19 0)).1
                                         (target s_x 1 (Cell.new 19 0)).2) as Hout
    by (unfold in_reach, tiles_row, tiles_col; simpl; lia).
  do 5 (split; [assumption |]).
  exact (blocked_move_only_draws Key.D s_x 1 w _ _ Hw Hact Hdir Hcs Hout).
Defined.

(** ** Restart, unknown keys and the pending task *)

(** X17. A Restart key release on a well-formed world returns and leaves the
    world of a new game, whatever was there: a new grid, a new player with
    one cell at [(0, 0)], empty counters, no pending task, no event. *)
Theorem restart_starts_over w :
  wf w →
  ∃ fd r, on_key_release Key.R w
          = (Done tt, mkWorld (Grid_init tiles_row tiles_col)
                              (mkPlayer [Cell.new 0 0] 0 1 0 (mkFeatures 1 1 fd))
                              0 0 None None 0 r).
Proof.
  intros Hw.
  destruct (on_key_release_exec Key.R w Hw) as (w2 & Hw2 & (Hpl & _) & _ & _ & _ & ->).
  cbn [actions]. rewrite <- Hpl.
  pose proof (wf_player _ Hw2) as Hne.
  destruct (cells (player w2)) as [| c cs] eqn:Hcs; [done |]. cbn [length].
  unfold suppress. rewrite for_cells_command by (done || by rewrite Hcs).
  destruct (roll_for_death_run w2) as (w3 & Hroll3 & Hr).
  unfold update_player. rewrite (bind_Done _ _ _ _ _ Hroll3). str_tests.
  destruct (Player_init_run w3) as (fd & Hinit). rewrite (bind_Done _ _ _ _ _ Hinit).
  by eexists fd, _.
Qed.

Lemma restart_starts_over_witness :
  let w := with_tile 5 6 HERB_FOOD
             (start_with [Cell.new 5 5; Cell.new 5 4] 7 3 CARN (always 66)) in
  wf w
  ∧ ∃ fd r, on_key_release Key.R w
            = (Done tt, mkWorld (Grid_init tiles_row tiles_col)
                                (mkPlayer [Cell.new 0 0] 0 1 0 (mkFeatures 1 1 fd))
                                0 0 None None 0 r).
Proof.
  intros w. assert (wf w) as Hw by concrete_wf.
  split; [exact Hw |]. exact (restart_starts_over w Hw).
Defined.

(** X18. A key the controller does not know makes the key release draw and
    write the pending tile, and nothing more: the player, the pending task,
    the event and its timer are as before. *)
Theorem unknown_key_only_draws code w :
  wf w →
  on_key_release (Key.Other code) w = (Done tt, exec (draw_player 0 ;; discharge) w)
  ∧ keeps w (exec (on_key_release (Key.Other code)) w)
  ∧ ∀ x y v, pending_task w = Some [x; y; v] →
             get_block (grid (exec (on_key_release (Key.Other code)) w)) x y = Some v.
Proof.
  intros Hw.
  destruct (on_key_release_prelude (Key.Other code) w Hw)
    as (w1 & g' & Hdraw & _ & _ & Hdis & _ & Hk & Hget & Hrun).
  cbn [actions] in Hrun.
  assert (exec (draw_player 0 ;; discharge) w = set_grid g' w1) as ->
    by (unfold exec; by rewrite (bind_Done _ _ _ _ _ Hdraw), Hdis).
  split; [done |]. unfold exec. rewrite Hrun. split; [done |]. apply Hget.
Qed.

Lemma unknown_key_only_draws_witness :
  let w := set_pending_task (Some [5; 6; HERB_FOOD])
             (start_with [Cell.new 5 5] 0 1 CARN (always 0)) in
  wf w
  ∧ on_key_release (Key.Other 32) w = (Done tt, exec (draw_player 0 ;; discharge) w)
  ∧ keeps w (exec (on_key_release (Key.Other 32)) w)
  ∧ ∀ x y v, pending_task w = Some [x; y; v] →
             get_block (grid (exec (on_key_release (Key.Other 32)) w)) x y = Some v.
Proof.
  intros w. assert (wf w) as Hw by concrete_wf.
  split; [exact Hw |]. exact (unknown_key_only_draws 32 w Hw).
Defined.

(** X19. The pending task is not cleared when it is run.  Over any key release
    but Restart a world that has a pending task still has one, and over
    Evolve it is the same one: its tile is written again at every later key
    release. *)
Theorem pending_task_outlives_key_release key w task :
  wf w →
  key ≠ Key.R →
  pending_task w = Some task →
  is_Some (pending_task (exec (on_key_release key) w))
  ∧ (key = Key.G → pending_task (exec (on_key_release key) w) = Some task).
Proof.
  intros Hw Hkey Htask.
  destruct (on_key_release_exec key w Hw)
    as (w2 & Hw2 & (Hpl & Hpe & _) & _ & _ & _ & Hrun).
  rewrite Htask in Hpe.
  assert (∀ direction amount, direction = s_x ∨ direction = s_y →
            is_Some (pending_task
                       (exec (suppress (for_cells (length (cells (player w))) 0 direction
                                                  (Some amount))) w2))) as Hdir.
  { intros direction amount Hd. rewrite exec_suppress.
    apply (for_cells_invariant (λ wa, is_Some (pending_task wa))); [done | | by rewrite Hpe].
    intros wa wb i c current HPa _ _ Hr. simpl.
    rewrite <- (rolled_pending _ _ Hr) in HPa. unfold resolved.
    repeat case_match; done. }
  unfold exec. rewrite Hrun.
  destruct key; cbn [actions]; try (split; [apply Hdir; by auto | done]); [| done |].
  - rewrite <- Hpl. pose proof (wf_player _ Hw2) as Hne.
    destruct (update_player_evolve (points (player w2)) w2 Hne) as (w3 & Hr & Hev).
    destruct (cells (player w2)) as [| c cs] eqn:Hcs; [done |]. cbn [length].
    unfold suppress. rewrite for_cells_command by (done || by rewrite Hcs).
    assert (pending_task w3 = Some task) as Hp3 by by rewrite (rolled_pending _ _ Hr).
    case_bool_decide.
    + destruct Hev as (p' & r & -> & _). cbn [snd pending_task set_player set_random].
      rewrite Hp3. split; [by eexists | done].
    + rewrite Hev. cbn [snd]. rewrite Hp3. split; [by eexists | done].
  - cbn [snd]. rewrite Hpe. split; [by eexists | done].
Qed.

Lemma pending_task_outlives_key_release_witness :
  let w := set_pending_task (Some [5; 6; HERB_FOOD])
             (start_with [Cell.new 5 5] 9 1 CARN (always 0)) in
  wf w
  ∧ Key.G ≠ Key.R
  ∧ pending_task w = Some [5; 6; HERB_FOOD]
  ∧ is_Some (pending_task (exec (on_key_release Key.G) w))
  ∧ (Key.G = Key.G → pending_task (exec (on_key_release Key.G) w) = Some [5; 6; HERB_FOOD]).
Proof.
  intros w. assert (wf w) as Hw by concrete_wf.
  assert (Key.G ≠ Key.R) as Hkey by discriminate.
  assert (pending_task w = Some [5; 6; HERB_FOOD]) as Htask by reflexivity.
  do 3 (split; [assumption |]).
  exact (pending_task_outlives_key_release Key.G w _ Hw Hkey Htask).
Defined.

(** ** Eating *)

(** X20. [update_player] for a food tile the diet takes: the food multiplier is
    added to the points, the counter of that food loses one, the other
    counter and the pending task stay. *)
Theorem update_player_eats w x y kind :
  kind = HERB_FOOD ∨ kind = CARN_FOOD →
  eats (feeding (features (player w))) kind = true →
  let w' := exec (update_player s_tile (Some kind) [x; y]) w in
  points (player w') = points (player w) + food (features (player w))
  ∧ herb_foods w' = herb_foods w - (if bool_decide (kind = HERB_FOOD) then 1 else 0)
  ∧ carn_foods w' = carn_foods w - (if bool_decide (kind = HERB_FOOD) then 0 else 1)
  ∧ pending_task w' = pending_task w.
Proof.
  intros Hkind Heats w'. subst w'. unfold exec.
  destruct (update_player_tile kind x y w) as (w1 & Hr & ->). cbn [snd].
  unfold resolved. rewrite (rolled_features _ _ Hr), Heats.
  rewrite bool_decide_eq_true_2 by (destruct Hkind as [-> | ->]; auto).
  unfold HERB_FOOD. case_bool_decide; cbn;
    rewrite (rolled_points _ _ Hr), (rolled_herb _ _ Hr), (rolled_carn _ _ Hr),
      (rolled_pending _ _ Hr); (split; [done |]); (split; [lia |]); (split; [lia | done]).
Qed.

Lemma update_player_eats_witness :
  let w := start_with [Cell.new 5 5] 2 1 OMN (always 0) in
  (CARN_FOOD = HERB_FOOD ∨ CARN_FOOD = CARN_FOOD)
  ∧ eats (feeding (features (player w))) CARN_FOOD = true
  ∧ points (player (exec (update_player s_tile (Some CARN_FOOD) [5; 6]) w))
    = points (player w) + food (features (player w))
  ∧ herb_foods (exec (update_player s_tile (Some CARN_FOOD) [5; 6]) w)
    = herb_foods w - (if bool_decide (CARN_FOOD = HERB_FOOD) then 1 else 0)
  ∧ carn_foods (exec (update_player s_tile (Some CARN_FOOD) [5; 6]) w)
    = carn_foods w - (if bool_decide (CARN_FOOD = HERB_FOOD) then 0 else 1)
  ∧ pending_task (exec (update_player s_tile (Some CARN_FOOD) [5; 6]) w) = pending_task w.
Proof.
  intros w.
  assert (CARN_FOOD = HERB_FOOD ∨ CARN_FOOD = CARN_FOOD) as Hkind by (right; reflexivity).
  assert (eats (feeding (features (player w))) CARN_FOOD = true) as Heats by reflexivity.
  do 2 (split; [assumption |]).
  exact (update_player_eats w 5 6 CARN_FOOD Hkind Heats).
Defined.

(** X21. A whole key release for a player of one cell that moves onto a food its
    diet takes: the cell is on the target, the food multiplier is added to the
    points, the counter of that food is one below what drawing left, and no
    cell is lost. *)
Theorem one_cell_eats key direction amount w c kind :
  wf w →
  cells (player w) = [c] →
  actions (player w) key = Some (direction, Some amount) →
  direction = s_x ∨ direction = s_y →
  let x := (target direction amount c).1 in
  let y := (target direction amount c).2 in
  let wd := exec (draw_player 0 ;; discharge) w in
  get_block (grid wd) x y = Some kind →
  kind = HERB_FOOD ∨ kind = CARN_FOOD →
  eats (feeding (features (player w))) kind = true →
  let w1 := exec (on_key_release key) w in
  cells (player w1) = [update_coords c direction amount]
  ∧ points (player w1) = points (player w) + food (features (player w))
  ∧ herb_foods w1 + carn_foods w1 = herb_foods wd + carn_foods wd - 1
  ∧ loses (player w1) = loses (player w)
  ∧ pending_task w1 = pending_task w.
Proof.
  intros Hw Hc Hact Hdir x y wd Hget Hkind Heats w1.
  destruct (on_key_release_exec key w Hw)
    as (w2 & Hw2 & (Hpl & Hpe & _) & Heq & _ & _ & Hrun).
  fold wd in Heq. subst wd. rewrite <- Heq in *. clear Heq.
  rewrite Hact, Hc in Hrun. cbn [length] in Hrun.
  destruct (for_cells_round 0 0 direction amount w2 c kind Hdir)
    as (wr & Hr & Hround); [by rewrite Hpl, Hc | done |].
  unfold suppress in Hrun. rewrite Hround in Hrun. fold x y in Hrun.
  unfold bind at 1 in Hrun. cbn in Hrun.
  assert (w1 = exec (move_cell 0 direction amount) (resolved kind x y wr)) as Hw1
    by (unfold w1, exec at 1; by rewrite Hrun).
  clearbody w1. subst w1.
  assert (dies w2 = false) as Hd.
  { unfold dies. rewrite Hpl, Hc. by rewrite andb_false_r. }
  cbn [exec move_cell modify_player modify snd player set_player set_cells cells points
       loses herb_foods carn_foods pending_task].
  rewrite resolved_cells, resolved_loses, (rolled_cells _ _ Hr), (rolled_loses _ _ Hr), Hd,
    Hpl, Hc.
  split; [done |].
  unfold resolved. rewrite (rolled_features _ _ Hr), Hpl, Heats.
  rewrite bool_decide_eq_true_2 by (destruct Hkind as [-> | ->]; auto).
  case_bool_decide; cbn;
    rewrite (rolled_points _ _ Hr), (rolled_herb _ _ Hr), (rolled_carn _ _ Hr),
      (rolled_pending _ _ Hr), Hpl, Hpe;
    (split; [done |]); (split; [lia | done]).
Qed.

Lemma one_cell_eats_witness :
  let w := with_tile 5 6 HERB_FOOD (start_with [Cell.new 5 5] 0 1 HERB (always 0)) in
  let c := Cell.new 5 5 in
  wf w
  ∧ cells (player w) = [c]
  ∧ actions (player w) Key.W = Some (s_y, Some 1)
  ∧ (s_y = s_x ∨ s_y = s_y)
  ∧ get_block (grid (exec (draw_player 0 ;; discharge) w))
      (target s_y 1 c).1 (target s_y 1 c).2 = Some HERB_FOOD
  ∧ (HERB_FOOD = HERB_FOOD ∨ HERB_FOOD = CARN_FOOD)
  ∧ eats (feeding (features (player w))) HERB_FOOD = true
  ∧ cells (player (exec (on_key_release Key.W) w)) = [update_coords c s_y 1]
  ∧ points (player (exec (on_key_release Key.W) w))
    = points (player w) + food (features (player w))
  ∧ herb_foods (exec (on_key_release Key.W) w) + carn_foods (exec (on_key_release Key.W) w)
    = herb_foods (exec (draw_player 0 ;; discharge) w)
      + carn_foods (exec (draw_player 0 ;; discharge) w) - 1
  ∧ loses (player (exec (on_key_release Key.W) w)) = loses (player w)
  ∧ pending_task (exec (on_key_release Key.W) w) = pending_task w.
Proof.
  intros w c. assert (wf w) as Hw by concrete_wf.
  assert (cells (player w) = [c]) as Hc by reflexivity.
  assert (actions (player w) Key.W = Some (s_y, Some 1)) as Hact by reflexivity.
  assert (s_y = s_x ∨ s_y = s_y) as Hdir by (right; reflexivity).
  assert (get_block (grid (exec (draw_player 0 ;; discharge) w))
            (target s_y 1 c).1 (target s_y 1 c).2 = Some HERB_FOOD) as Hget
    by (vm_compute; reflexivity).
  assert (HERB_FOOD = HERB_FOOD ∨ HERB_FOOD = CARN_FOOD) as Hkind by (left; reflexivity).
  assert (eats (feeding (features (player w))) HERB_FOOD = true) as Heats by reflexivity.
  do 7 (split; [assumption |]).
  exact (one_cell_eats Key.W s_y 1 w c HERB_FOOD Hw Hc Hact Hdir Hget Hkind Heats).
Defined.

(** ** Growing and evolving *)



Lemma update_player_evolves action w :
  cells (player w) ≠ [] →
  required_points (player w) ≤ action →
  ∃ w1 p' r a b,
    rolled w w1
    ∧ update_player s_evolve (Some action) [] w = (Done tt, set_player p' (set_random r w1))
    ∧ 1 ≤ a ≤ 3 ∧ -1 ≤ b ≤ 1
    ∧ food (features p') = reset_zero (food (features (player w)) + a)
    ∧ speed (features p') = reset_zero (speed (features (player w)) + b)
    ∧ cells_grown (cells (player w1)) (cells p').
Proof.
  intros Hne Hreq. destruct (roll_for_death_run w) as (w1 & Hroll & Hr).
  unfold update_player. rewrite (bind_Done _ _ _ _ _ Hroll). str_tests.
  unfold bind at 1, get. unfold required_points in *. rewrite (rolled_level _ _ Hr).
  rewrite bool_decide_eq_true_2 by done.
  unfold bind at 1, modify_player, modify. unfold bind at 1.
  match goal with |- context [obtain_new_feature ?w2] =>
    destruct (obtain_new_feature_run w2)
      as (o & p' & r & -> & _ & _ & _ & Hgrown & (a & b & Ha & Hb & Hf & Hs) & Ho)
  end.
  cbn [player set_player set_level set_points cells features] in *.
  rewrite Ho by by eapply rolled_cells_non_empty.
  rewrite (rolled_features _ _ Hr) in Hf, Hs.
  by exists w1, p', r, a, b.
Qed.

(** X23. An Evolve key release that is paid for re-rolls the features from
    values that are at least 1: the food multiplier grows by 1, 2 or 3, the
    speed moves by at most 1 and stays at least 1; the player ends with at
    most one cell more and at most one cell less than before. *)
Theorem evolve_rerolls_features w :
  wf w →
  required_points (player w) ≤ points (player w) →
  features_ok (features (player w)) →
  let f := features (player w) in
  let w' := exec (on_key_release Key.G) w in
  let f' := features (player w') in
  food f + 1 ≤ food f' ≤ food f + 3
  ∧ speed f - 1 ≤ speed f' ≤ speed f + 1
  ∧ 1 ≤ speed f'
  ∧ (length (cells (player w)) - 1 ≤ length (cells (player w'))
     ≤ length (cells (player w)) + 1)%nat.
Proof.
  intros Hw Hreq [Hfood Hspeed] f w' f'. subst f w' f'. unfold exec.
  destruct (on_key_release_evolve w Hw) as (w1 & Hw1 & (Hpl & _) & ->).
  destruct (update_player_evolves (points (player w)) w1)
    as (w2 & p' & r & a & b & Hr & Hrun & Ha & Hb & Hf & Hs & Hgrown).
  { apply Hw1. }
  { by rewrite Hpl. }
  unfold suppress. rewrite Hrun. cbn [snd player set_player].
  rewrite Hf, Hs, Hpl. unfold reset_zero.
  assert (length (cells (player w)) - 1 ≤ length (cells (player w2))
          ≤ length (cells (player w)))%nat as Hlen.
  { rewrite (rolled_cells _ _ Hr), Hpl. destruct (dies w1); [| lia].
    rewrite removelast_take, length_take. lia. }
  assert (length (cells (player w2)) ≤ length (cells p') ≤ length (cells (player w2)) + 1)%nat
    as Hlen'.
  { destruct Hgrown as [-> | (c & through & _ & _ & -> & _)]; [lia |].
    rewrite length_app. simpl. lia. }
  repeat case_bool_decide; lia.
Qed.

Lemma evolve_rerolls_features_witness :
  let w := start_with [Cell.new 0 0; Cell.new 1 0] 9 2 HERB (always 5) in
  wf w
  ∧ required_points (player w) ≤ points (player w)
  ∧ features_ok (features (player w))
  ∧ food (features (player w)) + 1
    ≤ food (features (player (exec (on_key_release Key.G) w)))
    ≤ food (features (player w)) + 3
  ∧ speed (features (player w)) - 1
    ≤ speed (features (player (exec (on_key_release Key.G) w)))
    ≤ speed (features (player w)) + 1
  ∧ 1 ≤ speed (features (player (exec (on_key_release Key.G) w)))
  ∧ (length (cells (player w)) - 1
     ≤ length (cells (player (exec (on_key_release Key.G) w)))
     ≤ length (cells (player w)) + 1)%nat.
Proof.
  intros w. assert (wf w) as Hw by concrete_wf.
  assert (required_points (player w) ≤ points (player w)) as Hreq
    by (vm_compute; discriminate).
  assert (features_ok (features (player w))) as Hf by (unfold features_ok; simpl; lia).
  do 3 (split; [assumption |]).
  exact (evolve_rerolls_features w Hw Hreq Hf).
Defined.

(** ** The shapes of the grid *)

Lemma draw_grid_lookup row col (g : Grid) i r :
  grid_shaped row col g →
  draw_grid g !! i = Some r
  ↔ ∃ ridx cidx line v,
      g !! ridx = Some line ∧ line !! cidx = Some v
      ∧ i = (ridx * col + cidx)%nat ∧ r = tile_shape ridx cidx v.
Proof.
  intros [_ Hall]. unfold draw_grid.
  rewrite (join_lookup_Some_same_length col).
  2: { apply Forall_forall. intros l (ridx & line & -> & Hline)%elem_of_lookup_imap.
       rewrite length_imap. rewrite Forall_forall in Hall. apply Hall.
       by eapply list_elem_of_lookup_2. }
  split.
  - intros (ridx & l & cidx & Hl & Hr & ->).
    rewrite list_lookup_imap in Hl.
    destruct (g !! ridx) as [line|] eqn:Hline; [| done]. injection Hl as <-.
    rewrite list_lookup_imap in Hr.
    destruct (line !! cidx) as [v|] eqn:Hv; [| done]. injection Hr as <-.
    by exists ridx, cidx, line, v.
  - intros (ridx & cidx & line & v & Hline & Hv & -> & ->).
    exists ridx, (imap (λ cidx col, tile_shape ridx cidx col) line), cidx.
    by rewrite !list_lookup_imap, Hline, Hv.
Qed.

(** X24. [Controller.draw_grid] makes one rectangle for each tile, row after
    row: on a grid of the configured shape there are 400, and the one at
    position [ridx * 20 + cidx] is centred at
    [(35 * cidx + 110, 35 * ridx + 110)], is 30 by 30 and has the colour of
    the tile at row [ridx], column [cidx] (aqua for a value that is not a key
    of [CONFIG["colors"]]). *)
Theorem draw_grid_draws_every_tile (g : Grid) ridx cidx v :
  grid_shaped tiles_row tiles_col g →
  get_block g (Z.of_nat cidx) (Z.of_nat ridx) = Some v →
  length (draw_grid g) = 400%nat
  ∧ draw_grid g !! (ridx * 20 + cidx)%nat
    = Some (mkRectangle (35 * Z.of_nat cidx + 110) (35 * Z.of_nat ridx + 110) 30 30
                        (colors_get v)).
Proof.
  intros Hg Hget. split.
  - unfold draw_grid. rewrite length_join.
    destruct Hg as [Hlen Hall]. rewrite fmap_imap.
    rewrite (imap_ext _ (λ _ _, tiles_col)).
    2: { intros i line Hline. simpl. rewrite length_imap.
         rewrite Forall_forall in Hall. apply Hall. by eapply list_elem_of_lookup_2. }
    rewrite (imap_const (λ _, tiles_col)). 
    rewrite (sum_list_fmap_const g tiles_col), Hlen. done.
  - apply (draw_grid_lookup tiles_row tiles_col); [done |].
    pose proof (get_block_Some_reach _ _ _ _ _ _ Hg Hget) as [Hx Hy].
    unfold get_block in Hget. destruct Hg as [Hlen Hall].
    rewrite py_index_nonneg in Hget by lia. simpl in Hget. rewrite Nat2Z.id in Hget.
    destruct (g !! ridx) as [line|] eqn:Hline; [simpl in Hget | done].
    rewrite py_index_nonneg in Hget.
    2: { rewrite Forall_forall in Hall.
         rewrite (Hall line) by (by eapply list_elem_of_lookup_2). lia. }
    simpl in Hget. rewrite Nat2Z.id in Hget.
    exists ridx, cidx, line, v. split; [done |]. split; [done |]. split; [done |].
    unfold tile_shape, tiles_sep, tiles_width, tiles_height, window_padding.
    change (150 `div` 2) with 75. f_equal; lia.
Qed.

Lemma draw_grid_draws_every_tile_witness :
  let g := default [] (set_block (Grid_init 20 20) 19 18 3) in
  grid_shaped tiles_row tiles_col g
  ∧ get_block g (Z.of_nat 19) (Z.of_nat 18) = Some 3
  ∧ length (draw_grid g) = 400%nat
  ∧ draw_grid g !! (18 * 20 + 19)%nat
    = Some (mkRectangle (35 * Z.of_nat 19 + 110) (35 * Z.of_nat 18 + 110) 30 30
                        (colors_get 3)).
Proof.
  intros g.
  assert (grid_shaped tiles_row tiles_col g) as Hg
    by (split; [reflexivity | repeat constructor]).
  assert (get_block g (Z.of_nat 19) (Z.of_nat 18) = Some 3) as Hget by reflexivity.
  split; [exact Hg |]. split; [exact Hget |].
  exact (draw_grid_draws_every_tile g 18 19 3 Hg Hget).
Defined.

(** X25. Every rectangle [draw_grid] makes for a grid of the configured shape
    lies inside the window, and two rectangles at different positions of the
    shape list are at least the separator of 5 apart along x or along y: no
    tile is drawn over another. *)
Theorem draw_grid_shapes_are_apart (g : Grid) i j r1 r2 :
  grid_shaped tiles_row tiles_col g →
  draw_grid g !! i = Some r1 →
  draw_grid g !! j = Some r2 →
  (0 ≤ center_x r1 - width r1 `div` 2
   ∧ center_x r1 + width r1 `div` 2 ≤ window_width
   ∧ 0 ≤ center_y r1 - height r1 `div` 2
   ∧ center_y r1 + height r1 `div` 2 ≤ window_height)
  ∧ (i ≠ j →
     width r1 + tiles_sep ≤ Z.abs (center_x r1 - center_x r2)
     ∨ height r1 + tiles_sep ≤ Z.abs (center_y r1 - center_y r2)).
Proof.
  intros Hg Hi Hj.
  apply (draw_grid_lookup tiles_row tiles_col g i r1 Hg) in Hi
    as (ri & ci & line1 & v1 & Hl1 & Hv1 & -> & ->).
  apply (draw_grid_lookup tiles_row tiles_col g j r2 Hg) in Hj
    as (rj & cj & line2 & v2 & Hl2 & Hv2 & -> & ->).
  pose proof (lookup_lt_Some _ _ _ Hl1) as Hri. pose proof (lookup_lt_Some _ _ _ Hv1) as Hci.
  pose proof (lookup_lt_Some _ _ _ Hl2) as Hrj. pose proof (lookup_lt_Some _ _ _ Hv2) as Hcj.
  rewrite (grid_shaped_lookup _ _ _ _ _ Hg Hl1) in Hci.
  rewrite (grid_shaped_lookup _ _ _ _ _ Hg Hl2) in Hcj.
  destruct Hg as [Hlen _]. rewrite Hlen in Hri, Hrj.
  unfold tile_shape, window_width, window_height, tiles_sep, tiles_width, tiles_height,
    window_padding, tiles_row, tiles_col in *.
  cbn [center_x center_y width height].
  change (150 `div` 2) with 75. change (30 `div` 2) with 15.
  split; [lia |]. intros Hne.
  destruct (decide (ci = cj)) as [-> | Hc]; [| left; lia].
  destruct (decide (ri = rj)) as [-> | Hr]; [done | right; lia].
Qed.

Lemma draw_grid_shapes_are_apart_witness :
  let g := Grid_init 20 20 in
  let r1 := tile_shape 0 19 0 in
  let r2 := tile_shape 1 0 0 in
  grid_shaped tiles_row tiles_col g
  ∧ draw_grid g !! 19%nat = Some r1
  ∧ draw_grid g !! 20%nat = Some r2
  ∧ (0 ≤ center_x r1 - width r1 `div` 2
     ∧ center_x r1 + width r1 `div` 2 ≤ window_width
     ∧ 0 ≤ center_y r1 - height r1 `div` 2
     ∧ center_y r1 + height r1 `div` 2 ≤ window_height)
  ∧ (19%nat ≠ 20%nat →
     width r1 + tiles_sep ≤ Z.abs (center_x r1 - center_x r2)
     ∨ height r1 + tiles_sep ≤ Z.abs (center_y r1 - center_y r2)).
Proof.
  intros g r1 r2.
  assert (grid_shaped tiles_row tiles_col g) as Hg by apply Grid_init_shaped.
  assert (draw_grid g !! 19%nat = Some r1) as Hi by reflexivity.
  assert (draw_grid g !! 20%nat = Some r2) as Hj by reflexivity.
  do 3 (split; [assumption |]).
  exact (draw_grid_shapes_are_apart g 19 20 r1 r2 Hg Hi Hj).
Defined.

(** ** There and back *)

(** A move in which no roll says 66 and every target is on the grid: every
    cell is moved, the features and the generator's numbers are as before,
    and the world is well-formed. *)
Lemma move_all_alive key direction amount w :
  wf w →
  actions (player w) key = Some (direction, Some amount) →
  direction = s_x ∨ direction = s_y →
  Forall (λ c, in_reach tiles_row tiles_col (target direction amount c).1
                        (target direction amount c).2) (cells (player w)) →
  never_66 (random w) →
  let w' := exec (on_key_release key) w in
  wf w'
  ∧ cells (player w') = (λ c, update_coords c direction amount) <$> cells (player w)
  ∧ features (player w') = features (player w)
  ∧ loses (player w') = loses (player w)
  ∧ never_66 (random w').
Proof.
  intros Hw Hact Hdir Hall Hn w'. subst w'.
  destruct (on_key_release_wf key w Hw) as (w' & Hrun' & Hw').
  destruct (on_key_release_exec key w Hw) as (w2 & Hw2 & Hk & _ & _ & _ & Hrun).
  pose proof Hk as (Hpl & _ & _ & _ & Hsrc).
  destruct (for_cells_all_alive direction amount (cells (player w)) [] w2
              Hdir (wf_grid _ Hw2) (f_equal cells Hpl) Hall (never_66_keeps _ _ Hk Hn))
    as (wa & Hloop & Hc' & _ & _ & Hl').
  cbn [length] in Hloop. rewrite Hact in Hrun. unfold suppress in Hrun.
  rewrite Hloop in Hrun. unfold exec. rewrite Hrun. cbn [snd].
  assert (wa = w') as -> by congruence.
  split; [done |]. split; [done |].
  assert (features (player w') = features (player w2)
          ∧ source (random w') = source (random w2)) as [Hf Hs].
  { change w' with (snd (Done tt, w')). rewrite <- Hloop.
    change (snd (for_cells ?f ?i ?d ?a w2)) with (exec (for_cells f i d a) w2).
    apply (for_cells_invariant
             (λ wb, features (player wb) = features (player w2)
                    ∧ source (random wb) = source (random w2))); [done | | done].
    intros wb wc i c current [Hfb Hsb] _ _ Hr. simpl.
    rewrite resolved_random, (rolled_random _ _ Hr). simpl. split; [| done].
    destruct (resolved_player current (target direction amount c).1
                (target direction amount c).2 wc) as [-> | ->];
      simpl; by rewrite (rolled_features _ _ Hr). }
  rewrite Hf, Hl', Hpl. do 2 (split; [done |]).
  intros k. rewrite Hs, Hsrc. apply Hn.
Qed.

(** X26. A move and the opposite move bring every cell back to where it was,
    when no roll of the two key releases says 66 and the targets of the first
    move are on the grid: W then S, or D then A, or the other way round. *)
Theorem move_there_and_back key back direction amount w :
  wf w →
  actions (player w) key = Some (direction, Some amount) →
  actions (player w) back = Some (direction, Some (- amount)) →
  direction = s_x ∨ direction = s_y →
  Forall (λ c, in_reach tiles_row tiles_col (target direction amount c).1
                        (target direction amount c).2) (cells (player w)) →
  never_66 (random w) →
  let w2 := exec (on_key_release back) (exec (on_key_release key) w) in
  (λ c, (Cell.x c, Cell.y c)) <$> cells (player w2)
  = (λ c, (Cell.x c, Cell.y c)) <$> cells (player w)
  ∧ features (player w2) = features (player w)
  ∧ loses (player w2) = loses (player w).
Proof.
  intros Hw Hact Hback Hdir Hall Hn w2. subst w2.
  destruct (move_all_alive key direction amount w Hw Hact Hdir Hall Hn)
    as (Hw1 & Hc1 & Hf1 & Hl1 & Hn1).
  set (w1 := exec (on_key_release key) w) in *. clearbody w1.
  assert (actions (player w1) back = Some (direction, Some (- amount))) as Hback1.
  { destruct back; cbn [actions] in *; rewrite ?Hf1; try done;
      destruct Hdir; congruence. }
  destruct (move_all_alive back direction (- amount) w1 Hw1 Hback1 Hdir)
    as (_ & Hc2 & Hf2 & Hl2 & _); [| done |].
  { rewrite Hc1. apply Forall_fmap. pose proof (wf_cells _ Hw) as Hin.
    eapply Forall_impl; [exact Hin |]. intros c Hc. simpl.
    destruct Hdir as [-> | ->]; unfold target; simpl;
      destruct Hc; unfold in_reach; split; lia. }
  rewrite Hc2, Hc1, Hf2, Hf1, Hl2, Hl1. split; [| done].
  rewrite <- !list_fmap_compose. apply list_fmap_ext. intros _ c _. simpl.
  destruct Hdir as [-> | ->]; simpl; f_equal; lia.
Qed.

Lemma move_there_and_back_witness :
  let w := start_with [Cell.new 3 4; Cell.new 3 5] 0 1 HERB (always 0) in
  wf w
  ∧ actions (player w) Key.D = Some (s_x, Some 1)
  ∧ actions (player w) Key.A = Some (s_x, Some (- 1))
  ∧ (s_x = s_x ∨ s_x = s_y)
  ∧ Forall (λ c, in_reach tiles_row tiles_col (target s_x 1 c).1 (target s_x 1 c).2)
           (cells (player w))
  ∧ never_66 (random w)
  ∧ (λ c, (Cell.x c, Cell.y c))
      <$> cells (player (exec (on_key_release Key.A) (exec (on_key_release Key.D) w)))
    = (λ c, (Cell.x c, Cell.y c)) <$> cells (player w)
  ∧ features (player (exec (on_key_release Key.A) (exec (on_key_release Key.D) w)))
    = features (player w)
  ∧ loses (player (exec (on_key_release Key.A) (exec (on_key_release Key.D) w)))
    = loses (player w).
Proof.
  intros w. assert (wf w) as Hw by concrete_wf.
  assert (actions (player w) Key.D = Some (s_x, Some 1)) as Hact by reflexivity.
  assert (actions (player w) Key.A = Some (s_x, Some (- 1))) as Hback by reflexivity.
  assert (s_x = s_x ∨ s_x = s_y) as Hdir by (left; reflexivity).
  assert (Forall (λ c, in_reach tiles_row tiles_col (target s_x 1 c).1 (target s_x 1 c).2)
                 (cells (player w))) as Hall
    by (repeat constructor; unfold tiles_row, tiles_col; simpl; lia).
  assert (never_66 (random w)) as Hn by (intros k; vm_compute; discriminate).
  do 6 (split; [assumption |]).
  exact (move_there_and_back Key.D Key.A s_x 1 w Hw Hact Hback Hdir Hall Hn).
Defined.
